(** * IPOTracker: a shallow embedding of [ipo_email.py]

    The script is a four-stage pipeline: [get_upcoming_ipos] scrapes the
    calendar table, [filter_upcoming] keeps the rows dated inside a window,
    [compose_email] renders them as a plain-text and an HTML body, and
    [send_email] hands the message to the SMTP server.  [main] runs the four
    stages once and turns every exception into exit status 1.

    Conventions of the embedding.
    - A Python [str] is a sequence of Unicode characters; it is represented
      by the Rocq [string] of its UTF-8 encoding, and [Str.chars] gives the
      characters back.  The character classes ([str.strip], the [\s] and
      [\d] of the [strptime] regular expression, [int]) are CPython's, over
      all of Unicode.  A Rocq [string] that is not well-formed UTF-8 stands
      for no Python [str].
    - A function that can raise returns a [result]; the exception classes
      the script can meet are the constructors of [exn].
    - A [datetime.date] is represented by its proleptic Gregorian ordinal
      ([date.toordinal()], day 1 is 0001-01-01): CPython orders dates and
      adds a [timedelta] to a date exactly as it does on ordinals.
    - The libraries the script calls into and the outside world (process
      environment, clock, time-zone database, HTTP, SMTP) are the fields of a
      [World]; what the process does to the outside is recorded as a list of
      [event]s. *)

From Stdlib Require Import ZArith String Ascii List Lia Bool.
From stdpp Require Import gmap strings list.

Open Scope Z_scope.

(** ** Python runtime: exceptions and results *)

Module Py.

Inductive exn : Type :=
| ValueError
| KeyError (key : string)
| IndexError
| OverflowError
| UnknownTimeZoneError (zone : string)
| HTTPError
| ConnectionError
| SMTPException.

Inductive result (A : Type) : Type :=
| Ok (a : A)
| Raise (e : exn).
Arguments Ok {A} a.
Arguments Raise {A} e.

Definition bind {A B : Type} (r : result A) (k : A -> result B) : result B :=
  match r with
  | Ok a => k a
  | Raise e => Raise e
  end.

End Py.
Export Py.

Notation "'let*' x ':=' r 'in' k" := (bind r (fun x => k))
  (at level 10, x name, r at level 100, k at level 200).

(** ** Strings *)

Module Str.

Definition byte (c : ascii) : Z := Z.of_nat (nat_of_ascii c).

Definition between (lo hi : Z) (c : ascii) : bool :=
  (lo <=? byte c) && (byte c <=? hi).

(** *** The characters of a string

    The well-formed byte sequences of UTF-8 (The Unicode Standard, table
    3-7): one byte below 0x80, or a lead byte and one to three continuation
    bytes, the shortest form only, no surrogates, nothing above U+10FFFF. *)

Definition continuation (c : ascii) : bool := between 128 191 c.

Definition valid2 (b0 b1 : ascii) : bool :=
  between 194 223 b0 && continuation b1.

Definition valid3 (b0 b1 b2 : ascii) : bool :=
  ((between 224 224 b0 && between 160 191 b1)
   || (between 225 236 b0 && continuation b1)
   || (between 237 237 b0 && between 128 159 b1)
   || (between 238 239 b0 && continuation b1))
  && continuation b2.

Definition valid4 (b0 b1 b2 b3 : ascii) : bool :=
  ((between 240 240 b0 && between 144 191 b1)
   || (between 241 243 b0 && continuation b1)
   || (between 244 244 b0 && between 128 143 b1))
  && continuation b2 && continuation b3.

(** [list(s)]: the characters of [s], each as a string of length one (in
    Python's count).  A byte that starts no well-formed sequence is kept as
    an item of its own. *)
Fixpoint chars (s : string) : list string :=
  match s with
  | EmptyString => []
  | String b0 s1 =>
      match s1 with
      | String b1 s2 =>
          if valid2 b0 b1 then String b0 (String b1 EmptyString) :: chars s2
          else
            match s2 with
            | String b2 s3 =>
                if valid3 b0 b1 b2
                then String b0 (String b1 (String b2 EmptyString)) :: chars s3
                else
                  match s3 with
                  | String b3 s4 =>
                      if valid4 b0 b1 b2 b3
                      then String b0 (String b1 (String b2 (String b3 EmptyString)))
                           :: chars s4
                      else String b0 EmptyString :: chars s1
                  | EmptyString => String b0 EmptyString :: chars s1
                  end
            | EmptyString => String b0 EmptyString :: chars s1
            end
      | EmptyString => [String b0 EmptyString]
      end
  end.

(** [ord(ch)]: the code point of a character.  A stray byte gets the code
    point the [surrogateescape] handler gives it, which is in no class
    below. *)
Definition ord (ch : string) : Z :=
  match ch with
  | String b0 EmptyString =>
      if byte b0 <? 128 then byte b0 else 56320 + byte b0
  | String b0 (String b1 EmptyString) =>
      (byte b0 - 192) * 64 + (byte b1 - 128)
  | String b0 (String b1 (String b2 EmptyString)) =>
      (byte b0 - 224) * 4096 + (byte b1 - 128) * 64 + (byte b2 - 128)
  | String b0 (String b1 (String b2 (String b3 EmptyString))) =>
      (byte b0 - 240) * 262144 + (byte b1 - 128) * 4096 + (byte b2 - 128) * 64
      + (byte b3 - 128)
  | _ => -1
  end.

(** [ch] is the encoding of one character. *)
Definition char_ok (ch : string) : bool :=
  match ch with
  | String b0 EmptyString => byte b0 <? 128
  | String b0 (String b1 EmptyString) => valid2 b0 b1
  | String b0 (String b1 (String b2 EmptyString)) => valid3 b0 b1 b2
  | String b0 (String b1 (String b2 (String b3 EmptyString))) => valid4 b0 b1 b2 b3
  | _ => false
  end.

(** [s] is the encoding of a Python [str]: well-formed UTF-8, no stray
    byte. *)
Definition well_formed (s : string) : bool := forallb char_ok (chars s).

(** *** Character classes *)

(** [ch.isspace()], which is also the [\s] of a [str] pattern
    ([Py_UNICODE_ISSPACE]): TAB, LF, VT, FF, CR, FS, GS, RS, US, the space,
    and U+0085, U+00A0, U+1680, U+2000 to U+200A, U+2028, U+2029, U+202F,
    U+205F, U+3000. *)
Definition isspace (ch : string) : bool :=
  let cp := ord ch in
  ((9 <=? cp) && (cp <=? 13)) || ((28 <=? cp) && (cp <=? 31)) || (cp =? 32)
  || (cp =? 133) || (cp =? 160) || (cp =? 5760)
  || ((8192 <=? cp) && (cp <=? 8202))
  || (cp =? 8232) || (cp =? 8233) || (cp =? 8239) || (cp =? 8287)
  || (cp =? 12288).

(** The digit zero of every script with decimal digits (general category
    Nd, Unicode 14.0, the database of CPython 3.11); the nine characters
    after each are its digits one to nine. *)
Definition decimal_zeros : list Z :=
  [48; 1632; 1776; 1984; 2406; 2534; 2662; 2790; 2918; 3046; 3174; 3302;
   3430; 3558; 3664; 3792; 3872; 4160; 4240; 6112; 6160; 6470; 6608; 6784;
   6800; 6992; 7088; 7232; 7248; 42528; 43216; 43264; 43472; 43504; 43600;
   44016; 65296; 66720; 68912; 69734; 69872; 69942; 70096; 70384; 70736;
   70864; 71248; 71360; 71472; 71904; 72016; 72784; 73040; 73120; 92768;
   92864; 93008; 120782; 120792; 120802; 120812; 120822; 123200; 123632;
   125264; 130032].

(** [Py_UNICODE_TODECIMAL]: the value of a decimal digit, -1 for any other
    character. *)
Definition decimal (ch : string) : Z :=
  let cp := ord ch in
  match List.find (fun zero => (zero <=? cp) && (cp <? zero + 10)) decimal_zeros with
  | Some zero => cp - zero
  | None => -1
  end.

(** [ch.isdecimal()], which is also the [\d] of a [str] pattern. *)
Definition isdecimal (ch : string) : bool := 0 <=? decimal ch.

(** The ASCII digit of [d mod 10]. *)
Definition digit_char (d : Z) : ascii := ascii_of_nat (Z.to_nat (48 + d mod 10)).

(** [str.lower] on one ASCII character. *)
Definition lower (c : ascii) : ascii :=
  let n := Z.of_nat (nat_of_ascii c) in
  if (65 <=? n) && (n <=? 90) then ascii_of_nat (Z.to_nat (n + 32)) else c.

(** [''.join(parts)] *)
Fixpoint concat_all (parts : list string) : string :=
  match parts with
  | [] => EmptyString
  | p :: ps => p +:+ concat_all ps
  end.

(** *** [str.strip()]

    The leading run of whitespace characters goes, then the trailing one: a
    character stays when it is not whitespace or when something stays
    after it. *)
Fixpoint lstrip (l : list string) : list string :=
  match l with
  | [] => []
  | ch :: l' => if isspace ch then lstrip l' else l
  end.

Fixpoint rstrip (l : list string) : list string :=
  match l with
  | [] => []
  | ch :: l' =>
      match rstrip l' with
      | [] => if isspace ch then [] else [ch]
      | t => ch :: t
      end
  end.

Definition strip (s : string) : string := concat_all (rstrip (lstrip (chars s))).

(** [sep.join(parts)] *)
Fixpoint join (sep : string) (parts : list string) : string :=
  match parts with
  | [] => EmptyString
  | [p] => p
  | p :: ps => p +:+ sep +:+ join sep ps
  end.



(** [pat in s] *)
Fixpoint contains (pat s : string) : bool :=
  String.prefix pat s ||
  match s with
  | EmptyString => false
  | String _ s' => contains pat s'
  end.

Definition is_substring (pat s : string) : Prop :=
  exists pre post, s = pre +:+ pat +:+ post.

Definition newline : string := String "010" EmptyString.


(** [s * n] *)
Fixpoint repeat (s : string) (n : nat) : string :=
  match n with
  | O => EmptyString
  | S n' => s +:+ repeat s n'
  end.

End Str.

(** ** The [datetime] module *)

Module Datetime.

Definition MINYEAR : Z := 1.
Definition MAXYEAR : Z := 9999.
Definition _MAXORDINAL : Z := 3652059.

Definition _is_leap (year : Z) : bool :=
  (year mod 4 =? 0) && (negb (year mod 100 =? 0) || (year mod 400 =? 0)).

Definition _days_before_year (year : Z) : Z :=
  let y := year - 1 in
  y * 365 + y / 4 - y / 100 + y / 400.

Definition _DAYS_IN_MONTH : list Z :=
  [-1; 31; 28; 31; 30; 31; 30; 31; 31; 30; 31; 30; 31].

Definition _DAYS_BEFORE_MONTH : list Z :=
  [-1; 0; 31; 59; 90; 120; 151; 181; 212; 243; 273; 304; 334].

Definition _days_in_month (year month : Z) : Z :=
  if (month =? 2) && _is_leap year then 29
  else nth (Z.to_nat month) _DAYS_IN_MONTH (-1).

Definition _days_before_month (year month : Z) : Z :=
  nth (Z.to_nat month) _DAYS_BEFORE_MONTH (-1)
  + (if (2 <? month) && _is_leap year then 1 else 0).

Definition _ymd2ord (year month day : Z) : Z :=
  _days_before_year year + _days_before_month year month + day.

(** [_check_date_fields]: the test every [date] and [datetime]
    constructor applies. *)
Definition _check_date_fields (year month day : Z) : result unit :=
  if negb ((MINYEAR <=? year) && (year <=? MAXYEAR)) then Raise ValueError
  else if negb ((1 <=? month) && (month <=? 12)) then Raise ValueError
  else if negb ((1 <=? day) && (day <=? _days_in_month year month))
       then Raise ValueError
  else Ok tt.

(** A [datetime] with the fields the script reads; the time of day is
    kept to the second. *)
Record datetime : Type := mk_datetime {
  year : Z; month : Z; day : Z;
  hour : Z; minute : Z; second : Z
}.

(** A [date], as its ordinal. *)
Definition date : Type := Z.

(** [dt.date()] *)
Definition date_of (dt : datetime) : date :=
  _ymd2ord (year dt) (month dt) (day dt).

(** [timedelta(days=n)]: the constructor refuses more than 999999999 days
    either way. *)
Definition timedelta_days (n : Z) : result Z :=
  if (-999999999 <=? n) && (n <=? 999999999) then Ok n else Raise OverflowError.

(** [date.__add__]: [d + timedelta]. *)
Definition date_add (d : date) (delta : Z) : result date :=
  let o := d + delta in
  if (0 <? o) && (o <=? _MAXORDINAL) then Ok o else Raise OverflowError.

(** *** [datetime.strptime(s, "%b %d, %Y")]

    [_strptime] compiles the format to the regular expression
    [(?P<b>jan|...|dec)\s+(?P<d>3[0-1]|[1-2]\d|0[1-9]|[1-9]| [1-9]),\s+(?P<Y>\d\d\d\d)]
    with IGNORECASE, matches it at the start of the string, refuses
    unconverted trailing data, converts the three groups and builds the
    date.  The matcher below is that expression over the characters of the
    string, written with continuations so that the greedy [\s+] and the
    alternatives of [%d] backtrack as the [re] engine does.  Month names
    are those of the C locale. *)

Definition a_month : list string :=
  ["jan"; "feb"; "mar"; "apr"; "may"; "jun";
   "jul"; "aug"; "sep"; "oct"; "nov"; "dec"].

(** [s.lower()], as far as [_strptime] needs it: on a matched month group,
    where it changes the ASCII capitals and nothing else. *)
Fixpoint lower_string (s : string) : string :=
  match s with
  | EmptyString => EmptyString
  | String c s' => String (Str.lower c) (lower_string s')
  end.

(** [l.index(x)], counted from [i]. *)
Fixpoint index_from (i : Z) (x : string) (l : list string) : option Z :=
  match l with
  | [] => None
  | y :: l' => if String.eqb x y then Some i else index_from (i + 1) x l'
  end.

(** A literal character of the pattern that has no other case. *)
Definition is_char (c : ascii) (ch : string) : bool :=
  Str.ord ch =? Str.byte c.

(** A class [[lo-hi]] of the pattern. *)
Definition in_range (lo hi : ascii) (ch : string) : bool :=
  (Str.byte lo <=? Str.ord ch) && (Str.ord ch <=? Str.byte hi).

(** A lower-case letter [p] of the pattern under IGNORECASE: the letter,
    its capital, and the characters the engine holds to be the same letter
    in another case (U+017F for [s], U+212A for [k], U+0130 and U+0131 for
    [i]). *)
Definition matches_letter (p : ascii) (ch : string) : bool :=
  let cp := Str.ord ch in
  (cp =? Str.byte p) || (cp =? Str.byte p - 32)
  || (Ascii.eqb p "s" && (cp =? 383))
  || (Ascii.eqb p "k" && (cp =? 8490))
  || (Ascii.eqb p "i" && ((cp =? 304) || (cp =? 305))).

Definition matches_word (word : string) (c1 c2 c3 : string) : bool :=
  match word with
  | String p1 (String p2 (String p3 EmptyString)) =>
      matches_letter p1 c1 && matches_letter p2 c2 && matches_letter p3 c3
  | _ => false
  end.

(** [(?P<b>jan|feb|...|dec)]: the group and what follows it. *)
Definition re_b (s : list string) : option (string * list string) :=
  match s with
  | c1 :: c2 :: c3 :: rest =>
      if existsb (fun word => matches_word word c1 c2 c3) a_month
      then Some (c1 +:+ c2 +:+ c3, rest)
      else None
  | _ => None
  end.

(** [\s+], longest run first. *)
Fixpoint re_spaces {T : Type} (s : list string) (k : list string -> option T)
    : option T :=
  match s with
  | ch :: s' =>
      if Str.isspace ch then
        match re_spaces s' k with
        | Some r => Some r
        | None => k s'
        end
      else None
  | [] => None
  end.

(** One alternative of [%d]: a first character, optionally a second. *)
Definition re_d_alt (first : string -> bool) (second : option (string -> bool))
    (s : list string) : option (string * list string) :=
  match s, second with
  | c1 :: rest, None =>
      if first c1 then Some (c1, rest) else None
  | c1 :: c2 :: rest, Some snd =>
      if first c1 && snd c2 then Some (c1 +:+ c2, rest) else None
  | _, _ => None
  end.

Definition re_d_alternatives : list (list string -> option (string * list string)) :=
  [ re_d_alt (is_char "3") (Some (in_range "0" "1"));
    re_d_alt (in_range "1" "2") (Some Str.isdecimal);
    re_d_alt (is_char "0") (Some (in_range "1" "9"));
    re_d_alt (in_range "1" "9") None;
    re_d_alt (is_char " ") (Some (in_range "1" "9")) ].

(** An alternation: the first alternative whose continuation matches. *)
Fixpoint re_alt {T : Type} (alts : list (list string -> option (string * list string)))
    (s : list string) (k : string -> list string -> option T) : option T :=
  match alts with
  | [] => None
  | alt :: alts' =>
      match alt s with
      | Some (g, rest) =>
          match k g rest with
          | Some r => Some r
          | None => re_alt alts' s k
          end
      | None => re_alt alts' s k
      end
  end.

(** [(?P<Y>\d\d\d\d)] *)
Definition re_Y (s : list string) : option (string * list string) :=
  match s with
  | c1 :: c2 :: c3 :: c4 :: rest =>
      if Str.isdecimal c1 && Str.isdecimal c2 && Str.isdecimal c3 && Str.isdecimal c4
      then Some (c1 +:+ c2 +:+ c3 +:+ c4, rest)
      else None
  | _ => None
  end.

Record found : Type := mk_found {
  group_b : string; group_d : string; group_Y : string;
  unconverted : list string   (* the characters of [data_string[found.end():]] *)
}.

(** What the expression has to match after the day. *)
Definition re_after_day (b : string) (d : string) (s3 : list string) : option found :=
  match s3 with
  | ch :: s4 =>
      if is_char "," ch then
        re_spaces s4 (fun s5 =>
          match re_Y s5 with
          | Some (y, s6) => Some (mk_found b d y s6)
          | None => None
          end)
      else None
  | [] => None
  end.

(** [format_regex.match(data_string)] *)
Definition format_regex_match (data_string : string) : option found :=
  match re_b (Str.chars data_string) with
  | None => None
  | Some (b, s1) =>
      re_spaces s1 (fun s2 => re_alt re_d_alternatives s2 (re_after_day b))
  end.

(** [int(s)] on a matched group: optional surrounding whitespace, then
    decimal digits of any script. *)
Fixpoint int_digits (acc : Z) (s : list string) : Z :=
  match s with
  | [] => acc
  | ch :: s' => int_digits (10 * acc + Str.decimal ch) s'
  end.

Definition int (s : string) : Z :=
  int_digits 0 (Str.rstrip (Str.lstrip (Str.chars s))).

Definition strptime (data_string : string) : result datetime :=
  match format_regex_match data_string with
  | None => Raise ValueError                  (* does not match format *)
  | Some f =>
      match unconverted f with
      | _ :: _ => Raise ValueError            (* unconverted data remains *)
      | [] =>
          let y := int (group_Y f) in
          match index_from 1 (lower_string (group_b f)) a_month with
          | None => Raise ValueError          (* [.index] of a name not in the list *)
          | Some m =>
              let d := int (group_d f) in
              let* _ := _check_date_fields y m d in
              Ok (mk_datetime y m d 0 0 0)
          end
      end
  end.

(** *** [dt.strftime('%B %d, %Y')]: full month name, day of the month on
    two digits, year on four. *)

Definition f_month : list string :=
  ["January"; "February"; "March"; "April"; "May"; "June"; "July";
   "August"; "September"; "October"; "November"; "December"].

Definition pad2 (n : Z) : string :=
  String (Str.digit_char (n / 10)) (String (Str.digit_char n) EmptyString).

Definition pad4 (n : Z) : string :=
  String (Str.digit_char (n / 1000)) (String (Str.digit_char (n / 100))
    (String (Str.digit_char (n / 10)) (String (Str.digit_char n) EmptyString))).

Definition strftime (dt : datetime) : string :=
  nth (Z.to_nat (month dt - 1)) f_month EmptyString
  +:+ " " +:+ pad2 (day dt) +:+ ", " +:+ pad4 (year dt).

End Datetime.

(** ** [pytz] time zones

    A time zone object, as far as the script uses it: its name and its
    [localize] method, which attaches the zone to a naive [datetime] and may
    raise (the zones with transitions compute on neighbouring days, which
    overflows next to [datetime.min] and [datetime.max]). *)

Module Pytz.
Import Datetime.

Record tzinfo : Type := mk_tzinfo {
  zone : string;
  localize : datetime -> result datetime
}.

(** [pytz.utc] and the other fixed-offset zones: [localize] only sets the
    [tzinfo] field. *)
Definition static_tz (name : string) : tzinfo :=
  mk_tzinfo name (fun dt => Ok dt).

(** A zone with transitions ([DstTzInfo]): [localize] first computes
    [dt - 1 day] and [dt + 1 day]; the wall-clock fields of the result are
    those of [dt]. *)
Definition dst_tz (name : string) : tzinfo :=
  mk_tzinfo name (fun dt =>
    let o := date_of dt in
    if (1 <? o) && (o <? _MAXORDINAL) then Ok dt else Raise OverflowError).

End Pytz.

(** ** [bs4]: the parsed page

    The tree [BeautifulSoup(text, "html.parser")] builds, with the three
    operations the script uses.  Attributes play no part and are left out. *)

Module Bs4.

#[warnings="-register-all"]
Inductive node : Type :=
| Tag (name : string) (children : list node)
| NavigableString (text : string)
| Comment (text : string).

(** [tag.descendants]: every node below [tag], in document order. *)
Fixpoint descendants (n : node) : list node :=
  match n with
  | Tag _ children =>
      (fix below (l : list node) : list node :=
         match l with
         | [] => []
         | c :: l' => c :: descendants c ++ below l'
         end) children
  | NavigableString _ => []
  | Comment _ => []
  end.

Definition is_tag (name : string) (n : node) : bool :=
  match n with
  | Tag name' _ => String.eqb name name'
  | _ => false
  end.

(** [tag.find_all(name)] *)
Definition find_all (name : string) (n : node) : list node :=
  List.filter (is_tag name) (descendants n).

(** [tag._all_strings(strip=True)]: the text nodes below [tag], each
    stripped, the empty ones dropped; comments are not text. *)
Definition _all_strings (n : node) : list string :=
  flat_map (fun d =>
              match d with
              | NavigableString s =>
                  match Str.strip s with
                  | EmptyString => []
                  | t => [t]
                  end
              | _ => []
              end) (descendants n).

(** [tag.get_text(strip=True)] *)
Definition get_text (n : node) : string := Str.concat_all (_all_strings n).

End Bs4.

(** ** The script's data *)

(** An IPO record: the dictionary [get_upcoming_ipos] builds always has
    exactly these nine keys, each bound to a string. *)
Module Ipo.
Record t : Type := mk {
  date : string;
  symbol : string;
  company : string;
  exchange : string;
  price_range : string;
  shares_offered : string;
  deal_size : string;
  market_cap : string;
  revenue : string
}.
End Ipo.

(** A [MIMEText] part and the [MIMEMultipart('alternative')] message. *)
Record MIMEText : Type := mk_MIMEText {
  subtype : string;
  payload : string
}.

Record MIMEMultipart : Type := mk_MIMEMultipart {
  Subject : string;
  From : string;
  To : string;
  parts : list MIMEText
}.

(** [msg.attach(part)] *)
Definition attach (msg : MIMEMultipart) (part : MIMEText) : MIMEMultipart :=
  mk_MIMEMultipart (Subject msg) (From msg) (To msg) (parts msg ++ [part]).

(** [requests.Response] *)
Record Response : Type := mk_Response {
  status_code : Z;
  text : string
}.

(** ** The outside world

    The libraries the script calls and what they reach.  The clock moves:
    [clock n tz] is what [datetime.now(tz)] returns the [n]-th time the
    process reads the clock, and [readings] counts the readings made so
    far. *)

Record World : Type := mk_World {
  environ : gmap string string;                        (* [os.environ] *)
  pytz_timezone : string -> result Pytz.tzinfo;        (* [pytz.timezone(name)] *)
  clock : nat -> Pytz.tzinfo -> Datetime.datetime;     (* the readings of the clock *)
  readings : nat;                                      (* how many were made *)
  requests_get : string -> result Response;            (* [requests.get(url, timeout=30)] *)
  BeautifulSoup : string -> Bs4.node;                  (* [BeautifulSoup(text, "html.parser")] *)
  smtp_connect : string -> Z -> result unit;           (* [smtplib.SMTP_SSL(host, port)] *)
  smtp_login : string -> string -> result unit;        (* [server.login] *)
  smtp_sendmail : string -> list string -> MIMEMultipart -> result unit;
  smtp_quit : result unit                              (* the QUIT of [SMTP.__exit__] *)
}.

(** [datetime.now(tz)]: the next reading of the clock. *)
Definition datetime_now (w : World) (tz : Pytz.tzinfo) : Datetime.datetime :=
  clock w (readings w) tz.

(** The world after one more reading of the clock. *)
Definition after_reading (w : World) : World :=
  mk_World (environ w) (pytz_timezone w) (clock w) (S (readings w))
           (requests_get w) (BeautifulSoup w) (smtp_connect w) (smtp_login w)
           (smtp_sendmail w) (smtp_quit w).

Inductive log_level : Type := INFO | WARNING | ERROR.

Inductive log_record : Type :=
| Fetched_total (n : nat)
| Found_upcoming (n : nat)
| Email_sent (recipient : string)
| Skipping_row (row : Bs4.node)
| Error_occurred (exc : exn).

(** What a run does to the outside, in order. *)
Inductive event : Type :=
| HttpGet (url : string)
| SmtpConnect (host : string) (port : Z)
| SmtpLogin (user password : string)
| SmtpSendmail (from_addr : string) (to_addrs : list string) (msg : MIMEMultipart)
| SmtpQuit
| SmtpClose
| Log (level : log_level) (record : log_record).

(** Computations that act on the outside: the events so far go in, the
    outcome and the events so far come out. *)
Definition M (A : Type) : Type := list event -> result A * list event.

Definition ret {A : Type} (a : A) : M A := fun tr => (Ok a, tr).

Definition bindM {A B : Type} (m : M A) (k : A -> M B) : M B :=
  fun tr =>
    match m tr with
    | (Ok a, tr') => k a tr'
    | (Raise e, tr') => (Raise e, tr')
    end.

Definition emit (ev : event) : M unit := fun tr => (Ok tt, tr ++ [ev]).

Definition lift {A : Type} (r : result A) : M A := fun tr => (r, tr).

Notation "'letM' x ':=' m 'in' k" := (bindM m (fun x => k))
  (at level 10, x name, m at level 100, k at level 200).

(** A [for] loop that updates a local variable. *)
Fixpoint foldM {A X : Type} (body : A -> X -> M A) (l : list X) (a : A) : M A :=
  match l with
  | [] => ret a
  | x :: l' => letM a' := body a x in foldM body l' a'
  end.

(** [os.environ[key]] *)
Definition environ_getitem (w : World) (key : string) : result string :=
  match environ w !! key with
  | Some v => Ok v
  | None => Raise (KeyError key)
  end.

(** [os.getenv(key, default)] *)
Definition getenv (w : World) (key dflt : string) : string :=
  default dflt (environ w !! key).

(** [cells[i]] for a non-negative index. *)
Definition getitem {A : Type} (l : list A) (i : nat) : result A :=
  match l !! i with
  | Some x => Ok x
  | None => Raise IndexError
  end.

(** ** The script *)

Definition default_url : string := "https://stockanalysis.com/ipos/calendar/".

(** The body of the [try] of [get_upcoming_ipos]: the nine cell texts of a
    row, read by index. *)
Definition row_fields (cells : list Bs4.node) : result Ipo.t :=
  let* c0 := getitem cells 0 in
  let ipo_date := Bs4.get_text c0 in
  let* c1 := getitem cells 1 in
  let symbol := Bs4.get_text c1 in
  let* c2 := getitem cells 2 in
  let company := Bs4.get_text c2 in
  let* c3 := getitem cells 3 in
  let exchange := Bs4.get_text c3 in
  let* c4 := getitem cells 4 in
  let price_range := Bs4.get_text c4 in
  let* c5 := getitem cells 5 in
  let shares_offered := Bs4.get_text c5 in
  let* c6 := getitem cells 6 in
  let deal_size := Bs4.get_text c6 in
  let* c7 := getitem cells 7 in
  let market_cap := Bs4.get_text c7 in
  let* revenue :=
    if (8 <? length cells)%nat
    then let* c8 := getitem cells 8 in Ok (Bs4.get_text c8)
    else Ok "-"%string in
  Ok (Ipo.mk ipo_date symbol company exchange price_range
             shares_offered deal_size market_cap revenue).

(** One turn of the inner loop, on the list [ipos] built so far. *)
Definition row_step (ipos : list Ipo.t) (row : Bs4.node) : M (list Ipo.t) :=
  let cells := Bs4.find_all "td" row in
  if (length cells <? 8)%nat then ret ipos            (* continue *)
  else
    match row_fields cells with
    | Ok ipo => ret (ipos ++ [ipo])                    (* ipos.append({...}) *)
    | Raise IndexError =>
        letM _ := emit (Log WARNING (Skipping_row row)) in
        ret ipos                                       (* continue *)
    | Raise e => lift (Raise e)
    end.

(** The part of [get_upcoming_ipos] that follows the parse of the page.
    The two [logging.debug] calls of the function are below the level of
    every configuration the script runs under and leave no event. *)
Definition scrape (soup : Bs4.node) : M (list Ipo.t) :=
  let bodies := Bs4.find_all "tbody" soup in
  match bodies with
  | [] => lift (Raise ValueError)
  | _ =>
      foldM (fun ipos tbody => foldM row_step (Bs4.find_all "tr" tbody) ipos)
            bodies []
  end.

(** [response.raise_for_status()] *)
Definition raise_for_status (response : Response) : result unit :=
  if (400 <=? status_code response) && (status_code response <? 600)
  then Raise HTTPError else Ok tt.

Definition get_upcoming_ipos (w : World) (url : string) : M (list Ipo.t) :=
  letM _ := emit (HttpGet url) in
  letM response := lift (requests_get w url) in
  letM _ := lift (raise_for_status response) in
  let soup := BeautifulSoup w (text response) in
  scrape soup.

Definition parse_date (date_str : string) (tz : Pytz.tzinfo) : result Datetime.date :=
  let* parsed := Datetime.strptime date_str in
  let* localized := Pytz.localize tz parsed in
  Ok (Datetime.date_of localized).

(** The [tz] both [filter_upcoming] and [compose_email] start with. *)
Definition resolve_tz (w : World) (tz : option Pytz.tzinfo) : result Pytz.tzinfo :=
  match tz with
  | None => pytz_timezone w (getenv w "TIMEZONE" "America/New_York")
  | Some tz => Ok tz
  end.

(** One turn of the loop of [filter_upcoming], on the list [upcoming] built
    so far. *)
Definition filter_step (tz : Pytz.tzinfo) (today end_date : Datetime.date)
    (upcoming : list Ipo.t) (ipo : Ipo.t) : list Ipo.t :=
  match parse_date (Ipo.date ipo) tz with
  | Raise _ => upcoming                                (* except Exception: continue *)
  | Ok ipo_date =>
      if (today <=? ipo_date) && (ipo_date <=? end_date)
      then upcoming ++ [ipo]
      else upcoming
  end.

Definition filter_upcoming (w : World) (ipos : list Ipo.t) (days_ahead : Z)
    (tz : option Pytz.tzinfo) : result (list Ipo.t) :=
  let* tz := resolve_tz w tz in
  let today := Datetime.date_of (datetime_now w tz) in
  let* delta := Datetime.timedelta_days days_ahead in
  let* end_date := Datetime.date_add today delta in
  Ok (fold_left (filter_step tz today end_date) ipos []).

(** The pieces of the two bodies. *)
Definition header : string :=
  "IPO Date | Symbol | Company | Exchange | Price Range | Shares Offered | "
  +:+ "Deal Size | Market Cap" +:+ Str.newline
  +:+ Str.repeat "-" 80.

Definition text_line (ipo : Ipo.t) : string :=
  Ipo.date ipo +:+ " | " +:+ Ipo.symbol ipo +:+ " | " +:+ Ipo.company ipo +:+ " | "
  +:+ Ipo.exchange ipo +:+ " | "
  +:+ Ipo.price_range ipo +:+ " | " +:+ Ipo.shares_offered ipo +:+ " | "
  +:+ Ipo.deal_size ipo +:+ " | "
  +:+ Ipo.market_cap ipo.

(** One line of the row template: [f"<td>{field}</td>"]. *)
Definition html_cell (field : string) : string :=
  "<td>" +:+ field +:+ "</td>".

Definition html_row (ipo : Ipo.t) : string :=
  "<tr>"
  +:+ html_cell (Ipo.date ipo)
  +:+ html_cell (Ipo.symbol ipo)
  +:+ html_cell (Ipo.company ipo)
  +:+ html_cell (Ipo.exchange ipo)
  +:+ html_cell (Ipo.price_range ipo)
  +:+ html_cell (Ipo.shares_offered ipo)
  +:+ html_cell (Ipo.deal_size ipo)
  +:+ html_cell (Ipo.market_cap ipo)
  +:+ "</tr>".

Definition html_head (subject_date : string) : string :=
  "<html><body>"
  +:+ "<p>Upcoming IPOs scheduled within the next week as of " +:+ subject_date +:+ ":</p>"
  +:+ "<table border='1' cellpadding='5' cellspacing='0'>"
  +:+ "<thead>"
  +:+ "<tr>"
  +:+ "<th>IPO Date</th><th>Symbol</th><th>Company</th><th>Exchange</th>"
  +:+ "<th>Price Range</th><th>Shares Offered</th><th>Deal Size</th><th>Market Cap</th>"
  +:+ "</tr>"
  +:+ "</thead>"
  +:+ "<tbody>".

Definition html_foot : string :=
  "</tbody>"
  +:+ "</table>"
  +:+ "<p style='margin-top:1em;'>This information is sourced from StockAnalysis' IPO calendar. "
  +:+ "Please note that IPO dates and valuations may change as companies update "
  +:+ "their filings【153199201465310†L83-L96】.</p>"
  +:+ "</body></html>".

Definition no_ipos_text (subject_date : string) : string :=
  "There are no IPOs scheduled within the upcoming week as of " +:+ subject_date +:+ ".".

(** One turn of the loop of [compose_email], on the pair of lists [lines]
    and [html_rows]. *)
Definition compose_step (acc : list string * list string) (ipo : Ipo.t)
    : list string * list string :=
  let (lines, html_rows) := acc in
  (lines ++ [text_line ipo], html_rows ++ [html_row ipo]).

Definition compose_email (w : World) (ipos : list Ipo.t) (tz : option Pytz.tzinfo)
    : result MIMEMultipart :=
  let* tz := resolve_tz w tz in
  let now := datetime_now w tz in
  let subject_date := Datetime.strftime now in
  let subject := "Upcoming IPOs – Week of " +:+ subject_date in
  let* sender := environ_getitem w "GMAIL_USER" in
  let* recipient := environ_getitem w "RECIPIENT" in
  let msg := mk_MIMEMultipart subject sender recipient [] in
  match ipos with
  | [] =>
      let plain_text := no_ipos_text subject_date in
      let msg := attach msg (mk_MIMEText "plain" plain_text) in
      let msg := attach msg (mk_MIMEText "html" ("<p>" +:+ plain_text +:+ "</p>")) in
      Ok msg
  | _ =>
      let (lines, html_rows) := fold_left compose_step ipos ([header], []) in
      let plain_body := Str.join Str.newline lines in
      let html_body :=
        html_head subject_date +:+ Str.concat_all html_rows +:+ html_foot in
      let msg := attach msg (mk_MIMEText "plain" plain_body) in
      let msg := attach msg (mk_MIMEText "html" html_body) in
      Ok msg
  end.

(** [with smtplib.SMTP_SSL(...) as server: body]: whatever [body] does, the
    exit of the block sends QUIT and closes the socket; an error of QUIT
    replaces the outcome of [body]. *)
Definition with_server (w : World) (body : M unit) : M unit :=
  fun tr =>
    let (r, tr1) := body tr in
    let tr2 := tr1 ++ [SmtpQuit; SmtpClose] in
    match smtp_quit w with
    | Raise e => (Raise e, tr2)
    | Ok _ => (r, tr2)
    end.

Definition send_email (w : World) (msg : MIMEMultipart) : M unit :=
  letM gmail_user := lift (environ_getitem w "GMAIL_USER") in
  letM gmail_password := lift (environ_getitem w "GMAIL_PASS") in
  letM recipient := lift (environ_getitem w "RECIPIENT") in
  letM _ := emit (SmtpConnect "smtp.gmail.com" 465) in
  letM _ := lift (smtp_connect w "smtp.gmail.com" 465) in
  letM _ := with_server w (
    letM _ := emit (SmtpLogin gmail_user gmail_password) in
    letM _ := lift (smtp_login w gmail_user gmail_password) in
    letM _ := emit (SmtpSendmail gmail_user [recipient] msg) in
    lift (smtp_sendmail w gmail_user [recipient] msg)) in
  emit (Log INFO (Email_sent recipient)).

(** The [try] block of [main].  [filter_upcoming] has read the clock once
    when it returns, so [compose_email] gets the reading after that one. *)
Definition pipeline (w : World) : M unit :=
  letM all_ipos := get_upcoming_ipos w default_url in
  letM _ := emit (Log INFO (Fetched_total (length all_ipos))) in
  letM upcoming_ipos := lift (filter_upcoming w all_ipos 7 None) in
  letM _ := emit (Log INFO (Found_upcoming (length upcoming_ipos))) in
  letM email_msg := lift (compose_email (after_reading w) upcoming_ipos None) in
  send_email w email_msg.

(** [main], run as the whole process: the events of the run and the exit
    status ([sys.exit(1)] after any exception, 0 otherwise). *)
Definition main (w : World) : list event * Z :=
  match pipeline w [] with
  | (Ok _, tr) => (tr, 0)
  | (Raise exc, tr) => (tr ++ [Log ERROR (Error_occurred exc)], 1)
  end.

(** ** Characterisations used in the statements *)

(** The test a record passes to stay in the output of [filter_upcoming]:
    its date parses and lies in the closed interval. *)
Definition in_window (tz : Pytz.tzinfo) (today end_date : Datetime.date)
    (ipo : Ipo.t) : bool :=
  match parse_date (Ipo.date ipo) tz with
  | Ok d => (today <=? d) && (d <=? end_date)
  | Raise _ => false
  end.

(** The end date of a window can be computed: the [timedelta] exists and
    the sum is a date between 0001-01-01 and 9999-12-31. *)
Definition window_representable (today : Datetime.date) (days_ahead : Z) : Prop :=
  -999999999 <= days_ahead <= 999999999 /\
  0 < today + days_ahead <= Datetime._MAXORDINAL.

(** The record a row with cells [cells] contributes, if any: the texts of the
    first eight cells in order, then the text of the ninth or ["-"]. *)
Definition record_of_cells (cells : list Bs4.node) : option Ipo.t :=
  match cells with
  | c0 :: c1 :: c2 :: c3 :: c4 :: c5 :: c6 :: c7 :: rest =>
      Some (Ipo.mk (Bs4.get_text c0) (Bs4.get_text c1) (Bs4.get_text c2)
                   (Bs4.get_text c3) (Bs4.get_text c4) (Bs4.get_text c5)
                   (Bs4.get_text c6) (Bs4.get_text c7)
                   (match rest with
                    | c8 :: _ => Bs4.get_text c8
                    | [] => "-"%string
                    end))
  | _ => None
  end.

Definition records_of_rows (rows : list Bs4.node) : list Ipo.t :=
  flat_map (fun row => option_list (record_of_cells (Bs4.find_all "td" row))) rows.

Definition records_of_page (soup : Bs4.node) : list Ipo.t :=
  flat_map (fun tbody => records_of_rows (Bs4.find_all "tr" tbody))
           (Bs4.find_all "tbody" soup).

(** The eight fields of a record the two bodies show, in column order. *)
Definition rendered_fields (ipo : Ipo.t) : list string :=
  [Ipo.date ipo; Ipo.symbol ipo; Ipo.company ipo; Ipo.exchange ipo;
   Ipo.price_range ipo; Ipo.shares_offered ipo; Ipo.deal_size ipo;
   Ipo.market_cap ipo].



(** Two records that differ at most in [revenue]. *)
Definition same_but_revenue (a b : Ipo.t) : Prop :=
  Ipo.date a = Ipo.date b /\ Ipo.symbol a = Ipo.symbol b /\
  Ipo.company a = Ipo.company b /\ Ipo.exchange a = Ipo.exchange b /\
  Ipo.price_range a = Ipo.price_range b /\
  Ipo.shares_offered a = Ipo.shares_offered b /\
  Ipo.deal_size a = Ipo.deal_size b /\ Ipo.market_cap a = Ipo.market_cap b.

(** The two bodies [compose_email] attaches for a non-empty list. *)
Definition plain_body (ipos : list Ipo.t) : string :=
  Str.join Str.newline (header :: map text_line ipos).

Definition html_body (subject_date : string) (ipos : list Ipo.t) : string :=
  html_head subject_date +:+ Str.concat_all (map html_row ipos) +:+ html_foot.

(** The message [compose_email] builds from the as-of date, the two
    addresses and the records. *)
Definition message (subject_date sender recipient : string) (ipos : list Ipo.t)
    : MIMEMultipart :=
  mk_MIMEMultipart ("Upcoming IPOs – Week of " +:+ subject_date) sender recipient
    (match ipos with
     | [] =>
         [mk_MIMEText "plain" (no_ipos_text subject_date);
          mk_MIMEText "html" ("<p>" +:+ no_ipos_text subject_date +:+ "</p>")]
     | _ =>
         [mk_MIMEText "plain" (plain_body ipos);
          mk_MIMEText "html" (html_body subject_date ipos)]
     end).

(** The events of the mail session. *)
Definition is_smtp (ev : event) : bool :=
  match ev with
  | SmtpConnect _ _ | SmtpLogin _ _ | SmtpSendmail _ _ _ | SmtpQuit | SmtpClose => true
  | HttpGet _ | Log _ _ => false
  end.

Definition no_smtp (tr : list event) : bool := forallb (fun ev => negb (is_smtp ev)) tr.

Definition is_missing (w : World) (key : string) : bool :=
  match environ w !! key with
  | None => true
  | Some _ => false
  end.

(** One of the three required variables is absent. *)
Definition missing_configuration (w : World) : Prop :=
  environ w !! "GMAIL_USER" = None \/
  environ w !! "GMAIL_PASS" = None \/
  environ w !! "RECIPIENT" = None.

(** The first absent variable in the order a run reads them:
    [compose_email] reads [GMAIL_USER] and [RECIPIENT], then [send_email]
    reads [GMAIL_USER], [GMAIL_PASS] and [RECIPIENT]. *)
Definition first_missing (w : World) : option string :=
  List.find (is_missing w) ["GMAIL_USER"; "RECIPIENT"; "GMAIL_PASS"]%string.

(** A string [str.strip] leaves as it is. *)
Definition trimmed (s : string) : Prop := Str.strip s = s.

(** A run of characters with no whitespace at either end. *)
Definition starts_ok (l : list string) : Prop :=
  match l with
  | ch :: _ => Str.isspace ch = false
  | [] => True
  end.

Definition tidy (l : list string) : Prop :=
  forallb Str.char_ok l = true /\ starts_ok l /\ Str.rstrip l = l.

(** The characters a node gives to [get_text(strip=True)]. *)
Definition stripped_chars (d : Bs4.node) : list string :=
  match d with
  | Bs4.NavigableString s => Str.rstrip (Str.lstrip (Str.chars s))
  | _ => []
  end.

(** Every text node below [n] holds a Python string. *)
Definition text_well_formed (d : Bs4.node) : bool :=
  match d with
  | Bs4.NavigableString s => Str.well_formed s
  | _ => true
  end.

Definition texts_well_formed (n : Bs4.node) : bool :=
  forallb text_well_formed (Bs4.descendants n).

(** The nine fields of a record. *)
Definition all_fields (ipo : Ipo.t) : list string :=
  rendered_fields ipo ++ [Ipo.revenue ipo].

(** A date the way the calendar page writes it, "Aug 4, 2025": the
    three-letter month, the day with or without a leading zero, a comma and
    the year on four digits. *)
Definition month_abbr (m : Z) : string :=
  nth (Z.to_nat (m - 1))
      ["Jan"; "Feb"; "Mar"; "Apr"; "May"; "Jun";
       "Jul"; "Aug"; "Sep"; "Oct"; "Nov"; "Dec"]%string EmptyString.

Definition day_text (padded : bool) (d : Z) : string :=
  if padded || (10 <=? d) then Datetime.pad2 d
  else String (Str.digit_char d) EmptyString.

Definition calendar_text (padded : bool) (y m d : Z) : string :=
  month_abbr m +:+ " " +:+ day_text padded d +:+ ", " +:+ Datetime.pad4 y.

(** A string of ASCII characters only, and its characters: its bytes,
    one by one. *)
Fixpoint ascii_only (s : string) : bool :=
  match s with
  | EmptyString => true
  | String c s' => (Str.byte c <? 128) && ascii_only s'
  end.

Fixpoint singles (s : string) : list string :=
  match s with
  | EmptyString => []
  | String c s' => String c EmptyString :: singles s'
  end.




(** The records one table body contributes. *)
Definition records_of_body (tbody : Bs4.node) : list Ipo.t :=
  records_of_rows (Bs4.find_all "tr" tbody).

(** The first absent variable in the order [send_email] reads them. *)
Definition first_missing_send (w : World) : option string :=
  List.find (is_missing w) ["GMAIL_USER"; "GMAIL_PASS"; "RECIPIENT"]%string.

(** An event that talks to the server once the connection is open. *)
Definition is_session (ev : event) : bool :=
  match ev with
  | SmtpLogin _ _ | SmtpSendmail _ _ _ | SmtpQuit | SmtpClose => true
  | _ => false
  end.

Definition is_sendmail (ev : event) : bool :=
  match ev with
  | SmtpSendmail _ _ _ => true
  | _ => false
  end.

Definition is_connect (ev : event) : bool :=
  match ev with
  | SmtpConnect _ _ => true
  | _ => false
  end.

Definition is_http (ev : event) : bool :=
  match ev with
  | HttpGet _ => true
  | _ => false
  end.

Definition count_events (p : event -> bool) (tr : list event) : nat :=
  length (List.filter p tr).

(** The same world with another process environment. *)
Definition set_environ (w : World) (env : gmap string string) : World :=
  mk_World env (pytz_timezone w) (clock w) (readings w) (requests_get w)
           (BeautifulSoup w) (smtp_connect w) (smtp_login w) (smtp_sendmail w)
           (smtp_quit w).

(** ** Sample inputs

    A world for running the definitions: the clock reads 2025-08-04 09:30 in
    every zone and is one second further at each reading, the zone database
    knows New York and UTC, the calendar page is [sample_page] and the mail
    server accepts everything.  The environment is a parameter. *)

Definition td (s : string) : Bs4.node := Bs4.Tag "td" [Bs4.NavigableString s].

Definition sample_row (date symbol : string) : Bs4.node :=
  Bs4.Tag "tr" [td date; td symbol; td "Abc Inc"; td "NYSE"; td "$14-$16";
                td "10,000,000"; td "$150M"; td "$1.2B"].

Definition sample_page : Bs4.node :=
  Bs4.Tag "[document]"
    [Bs4.Tag "table"
       [Bs4.Tag "thead" [Bs4.Tag "tr" [Bs4.Tag "th" [Bs4.NavigableString "IPO Date"]]];
        Bs4.Tag "tbody"
          [sample_row " Aug 4, 2025 " "ABC";
           Bs4.Tag "tr" [td "This Week"];
           sample_row "Aug 11, 2025" "DEF";
           sample_row "Aug 12, 2025" "GHI";
           sample_row "TBD" "JKL"]]].

Definition sample_timezone (name : string) : result Pytz.tzinfo :=
  if String.eqb name "America/New_York" then Ok (Pytz.dst_tz name)
  else if String.eqb name "UTC" then Ok (Pytz.static_tz name)
  else Raise (UnknownTimeZoneError name).

Definition world_with (env : gmap string string) (page : Bs4.node) : World :=
  mk_World env sample_timezone
    (fun n _ => Datetime.mk_datetime 2025 8 4 9 30 (Z.of_nat n)) 0
    (fun _ => Ok (mk_Response 200 "<html>...</html>"))
    (fun _ => page)
    (fun _ _ => Ok tt) (fun _ _ => Ok tt) (fun _ _ _ => Ok tt) (Ok tt).

Definition sample_world (env : gmap string string) : World :=
  world_with env sample_page.

(** A page whose only row has ten cells, and a page with no table. *)
Definition ten_cell_row : Bs4.node :=
  Bs4.Tag "tr" [td "Aug 4, 2025"; td "ABC"; td "Abc Inc"; td "NYSE"; td "$14-$16";
                td "10,000,000"; td "$150M"; td "$1.2B"; td "$30M"; td "extra"].

Definition ten_cell_page : Bs4.node :=
  Bs4.Tag "[document]" [Bs4.Tag "table" [Bs4.Tag "tbody" [ten_cell_row]]].

Definition empty_page : Bs4.node :=
  Bs4.Tag "[document]" [Bs4.Tag "p" [Bs4.NavigableString "Service unavailable"]].

Definition full_env : gmap string string :=
  <["GMAIL_USER" := "sender@example.com"]>
    (<["GMAIL_PASS" := "app-password"]>
       (<["RECIPIENT" := "reader@example.com"]> ∅)).

(** An environment without the app password. *)
Definition env_without_pass : gmap string string :=
  <["GMAIL_USER" := "sender@example.com"]>
    (<["RECIPIENT" := "reader@example.com"]> ∅).

Definition env_without_user : gmap string string :=
  <["GMAIL_PASS" := "app-password"]>
    (<["RECIPIENT" := "reader@example.com"]> ∅).

Definition env_without_recipient : gmap string string :=
  <["GMAIL_USER" := "sender@example.com"]>
    (<["GMAIL_PASS" := "app-password"]> ∅).

Definition new_york : Pytz.tzinfo := Pytz.dst_tz "America/New_York".

Definition sample_record (date symbol : string) : Ipo.t :=
  Ipo.mk date symbol "Abc Inc" "NYSE" "$14-$16" "10,000,000" "$150M" "$1.2B" "-".

Definition sample_ipo (date : string) : Ipo.t := sample_record date "ABC".

(** A page whose table body holds, in a cell, a second table with the row. *)
Definition nested_inner : Bs4.node :=
  Bs4.Tag "tbody" [sample_row "Aug 4, 2025" "ABC"].

Definition nested_outer : Bs4.node :=
  Bs4.Tag "tbody" [Bs4.Tag "tr" [Bs4.Tag "td" [Bs4.Tag "table" [nested_inner]]]].

Definition nested_page : Bs4.node :=
  Bs4.Tag "[document]" [Bs4.Tag "table" [nested_outer]].

(** A row the way a page can write it, with no-break spaces (U+00A0)
    inside and after the date, next to the market capitalisation and alone
    in the revenue cell, and with the year in Arabic-Indic digits. *)
Definition nbsp : string := String "194" (String "160" EmptyString).

Definition arabic_indic_2025 : string :=
  String "217" (String "162" (String "217" (String "160"
    (String "217" (String "162" (String "217" (String "165" EmptyString))))))).

Definition unicode_row : Bs4.node :=
  Bs4.Tag "tr" [td ("Aug" +:+ nbsp +:+ "4, " +:+ arabic_indic_2025 +:+ nbsp);
                td "ABC"; td "Abc Inc"; td "NYSE"; td "$14-$16";
                td "10,000,000"; td "$150M"; td ("$1.2B" +:+ nbsp); td nbsp].

Definition unicode_page : Bs4.node :=
  Bs4.Tag "[document]" [Bs4.Tag "table" [Bs4.Tag "tbody" [unicode_row]]].

Definition unicode_record : Ipo.t :=
  Ipo.mk ("Aug" +:+ nbsp +:+ "4, " +:+ arabic_indic_2025) "ABC" "Abc Inc" "NYSE"
         "$14-$16" "10,000,000" "$150M" "$1.2B" EmptyString.


(** * Properties *)

#[local] Arguments String.append !_ _ / : simpl nomatch.

(** ** Strings *)

Section StringFacts.

Lemma append_empty_r (s : string) : s +:+ EmptyString = s.
Proof. induction s as [|c s IH]; simpl; [done | by rewrite IH]. Qed.

Lemma append_assoc (a b c : string) : (a +:+ b) +:+ c = a +:+ b +:+ c.
Proof. induction a as [|x a IH]; simpl; [done | by rewrite IH]. Qed.





Lemma prefix_split pat s :
  String.prefix pat s = true -> exists post, s = pat +:+ post.
Proof.
  revert s. induction pat as [|p pat IH]; intros s H.
  - by exists s.
  - destruct s as [|x s]; [done|]. simpl in H.
    destruct (ascii_dec p x) as [->|]; [|done].
    destruct (IH s H) as (post & ->). by exists post.
Qed.

Lemma prefix_contains pat s : String.prefix pat s = true -> Str.is_substring pat s.
Proof.
  intros H. destruct (prefix_split _ _ H) as (post & ->).
  by exists EmptyString, post.
Qed.

(** The executable test implies the relation. *)
Lemma contains_is_substring pat s :
  Str.contains pat s = true -> Str.is_substring pat s.
Proof.
  induction s as [|x s IH]; simpl; intros H.
  - apply orb_true_iff in H as [H|H]; [by apply prefix_contains | done].
  - apply orb_true_iff in H as [H|H]; [by apply prefix_contains|].
    destruct (IH H) as (pre & post & ->). by exists (String x pre), post.
Qed.




Lemma chars_unfold b0 t :
  Str.chars (String b0 t)
  = match t with
    | String b1 s2 =>
        if Str.valid2 b0 b1 then String b0 (String b1 EmptyString) :: Str.chars s2
        else
          match s2 with
          | String b2 s3 =>
              if Str.valid3 b0 b1 b2
              then String b0 (String b1 (String b2 EmptyString)) :: Str.chars s3
              else
                match s3 with
                | String b3 s4 =>
                    if Str.valid4 b0 b1 b2 b3
                    then String b0 (String b1 (String b2 (String b3 EmptyString)))
                         :: Str.chars s4
                    else String b0 EmptyString :: Str.chars t
                | EmptyString => String b0 EmptyString :: Str.chars t
                end
          | EmptyString => String b0 EmptyString :: Str.chars t
          end
    | EmptyString => [String b0 EmptyString]
    end.
Proof. destruct t; reflexivity. Qed.

(** An ASCII character is a character of its own, whatever follows. *)
Lemma chars_ascii c s :
  (Str.byte c <? 128) = true ->
  Str.chars (String c s) = String c EmptyString :: Str.chars s.
Proof.
  intros H. apply Z.ltb_lt in H.
  assert (H2 : forall b1, Str.valid2 c b1 = false).
  { intros b1. unfold Str.valid2, Str.between.
    by rewrite (proj2 (Z.leb_gt 194 (Str.byte c))) by lia. }
  assert (H3 : forall b1 b2, Str.valid3 c b1 b2 = false).
  { intros b1 b2. unfold Str.valid3, Str.between.
    rewrite (proj2 (Z.leb_gt 224 (Str.byte c))) by lia.
    rewrite (proj2 (Z.leb_gt 225 (Str.byte c))) by lia.
    rewrite (proj2 (Z.leb_gt 237 (Str.byte c))) by lia.
    by rewrite (proj2 (Z.leb_gt 238 (Str.byte c))) by lia. }
  assert (H4 : forall b1 b2 b3, Str.valid4 c b1 b2 b3 = false).
  { intros b1 b2 b3. unfold Str.valid4, Str.between.
    rewrite (proj2 (Z.leb_gt 240 (Str.byte c))) by lia.
    rewrite (proj2 (Z.leb_gt 241 (Str.byte c))) by lia.
    by rewrite (proj2 (Z.leb_gt 244 (Str.byte c))) by lia. }
  rewrite chars_unfold.
  destruct s as [|b1 [|b2 [|b3 s4]]]; rewrite ?H2, ?H3, ?H4; reflexivity.
Qed.

End StringFacts.

(** ** The date filter *)

Section Filter.

Variable tz : Pytz.tzinfo.
Variables today end_date : Datetime.date.

Lemma filter_step_in_window upcoming ipo :
  filter_step tz today end_date upcoming ipo
  = upcoming ++ (if in_window tz today end_date ipo then [ipo] else []).
Proof.
  unfold filter_step, in_window.
  destruct (parse_date (Ipo.date ipo) tz) as [d|e].
  - destruct ((today <=? d) && (d <=? end_date)); [done | by rewrite app_nil_r].
  - by rewrite app_nil_r.
Qed.

(** The loop is a filter: it appends to what it started with the records
    that pass the test, in the order it met them. *)
Lemma filter_loop ipos upcoming :
  fold_left (filter_step tz today end_date) ipos upcoming
  = upcoming ++ List.filter (in_window tz today end_date) ipos.
Proof.
  revert upcoming.
  induction ipos as [|ipo ipos IH]; intros upcoming; simpl.
  - by rewrite app_nil_r.
  - rewrite IH, filter_step_in_window.
    destruct (in_window tz today end_date ipo); simpl.
    + by rewrite <- app_assoc.
    + by rewrite app_nil_r.
Qed.

Lemma in_window_spec ipo :
  in_window tz today end_date ipo = true <->
  exists d, parse_date (Ipo.date ipo) tz = Ok d /\ today <= d <= end_date.
Proof.
  unfold in_window. split.
  - destruct (parse_date (Ipo.date ipo) tz) as [d|e]; [|done].
    intros H. apply andb_true_iff in H as [H1 H2].
    exists d. split; [done | lia].
  - intros (d & -> & H). apply andb_true_iff. split; lia.
Qed.

End Filter.

Lemma timedelta_days_Ok days_ahead :
  -999999999 <= days_ahead <= 999999999 ->
  Datetime.timedelta_days days_ahead = Ok days_ahead.
Proof.
  intros H. unfold Datetime.timedelta_days.
  destruct (-999999999 <=? days_ahead) eqn:E1; [|lia].
  destruct (days_ahead <=? 999999999) eqn:E2; [done | lia].
Qed.

Lemma date_add_Ok d delta :
  0 < d + delta <= Datetime._MAXORDINAL ->
  Datetime.date_add d delta = Ok (d + delta).
Proof.
  intros H. unfold Datetime.date_add.
  destruct (0 <? d + delta) eqn:E1; [|lia].
  destruct (d + delta <=? Datetime._MAXORDINAL) eqn:E2; [done | lia].
Qed.

(** What [filter_upcoming] returns when the zone resolves and the end date
    of the window is representable. *)
Lemma filter_upcoming_Ok w ipos days_ahead tz z :
  resolve_tz w tz = Ok z ->
  window_representable (Datetime.date_of (datetime_now w z)) days_ahead ->
  filter_upcoming w ipos days_ahead tz
  = Ok (List.filter
          (in_window z (Datetime.date_of (datetime_now w z))
                     (Datetime.date_of (datetime_now w z) + days_ahead)) ipos).
Proof.
  intros Hz [Hd Ho]. unfold filter_upcoming.
  rewrite Hz. simpl.
  rewrite (timedelta_days_Ok _ Hd). simpl.
  rewrite (date_add_Ok _ _ Ho). simpl.
  by rewrite filter_loop.
Qed.

(** Whenever [filter_upcoming] returns, it returns a filter of its input. *)
Lemma filter_upcoming_inv w ipos days_ahead tz upcoming :
  filter_upcoming w ipos days_ahead tz = Ok upcoming ->
  exists z end_date,
    resolve_tz w tz = Ok z /\
    upcoming = List.filter
                 (in_window z (Datetime.date_of (datetime_now w z)) end_date) ipos.
Proof.
  unfold filter_upcoming. intros H.
  destruct (resolve_tz w tz) as [z|e]; [|done]. simpl in H.
  destruct (Datetime.timedelta_days days_ahead) as [delta|e]; [|done]. simpl in H.
  destruct (Datetime.date_add _ delta) as [end_date|e]; [|done]. simpl in H.
  exists z, end_date. split; [done|].
  rewrite filter_loop in H. simpl in H. congruence.
Qed.

Lemma filter_sublist {A : Type} (f : A -> bool) (l : list A) :
  sublist (List.filter f l) l.
Proof.
  induction l as [|x l IH]; simpl.
  - constructor.
  - destruct (f x); by constructor.
Qed.

Lemma elem_of_filter {A : Type} (f : A -> bool) (l : list A) (x : A) :
  x ∈ List.filter f l <-> x ∈ l /\ f x = true.
Proof. rewrite !list_elem_of_In. apply filter_In. Qed.

Lemma filter_app_cons_false {A : Type} (f : A -> bool) (l1 l2 : list A) (x : A) :
  f x = false ->
  List.filter f (l1 ++ x :: l2) = List.filter f (l1 ++ l2).
Proof.
  intros H. rewrite !List.filter_app. simpl. by rewrite H.
Qed.

Lemma filter_upcoming_overflow w ipos days_ahead tz z :
  resolve_tz w tz = Ok z ->
  ~ window_representable (Datetime.date_of (datetime_now w z)) days_ahead ->
  filter_upcoming w ipos days_ahead tz = Raise OverflowError.
Proof.
  intros Hz Hn. unfold filter_upcoming. rewrite Hz. simpl.
  unfold Datetime.timedelta_days.
  destruct ((-999999999 <=? days_ahead) && (days_ahead <=? 999999999)) eqn:E; [|done].
  simpl. unfold Datetime.date_add.
  destruct ((0 <? _ + days_ahead) && (_ + days_ahead <=? Datetime._MAXORDINAL)) eqn:E'; [|done].
  exfalso. apply Hn. unfold window_representable.
  apply andb_true_iff in E as [? ?]. apply andb_true_iff in E' as [? ?]. lia.
Qed.

(** C1, amended.  With the zone resolved and [today] read from the clock:
    when the end date [today + days_ahead] is representable,
    [filter_upcoming] returns exactly the records whose date parses to a
    [d] with [today <= d <= today + days_ahead], in input order; for a
    window of non-negative length a record dated [today] and one dated
    [today + days_ahead] are kept; one dated [today + days_ahead + 1] and
    one dated [today - 1] are dropped.  When the end date is not
    representable the call raises [OverflowError]. *)
Theorem filter_upcoming_window w ipos days_ahead tz z :
  let today := Datetime.date_of (datetime_now w z) in
  resolve_tz w tz = Ok z ->
  (window_representable today days_ahead ->
   exists upcoming,
     filter_upcoming w ipos days_ahead tz = Ok upcoming /\
     upcoming = List.filter (in_window z today (today + days_ahead)) ipos /\
     (forall ipo, ipo ∈ upcoming <->
        ipo ∈ ipos /\
        exists d, parse_date (Ipo.date ipo) z = Ok d /\
                  today <= d <= today + days_ahead) /\
     (forall ipo, ipo ∈ ipos -> 0 <= days_ahead ->
        parse_date (Ipo.date ipo) z = Ok today -> ipo ∈ upcoming) /\
     (forall ipo, ipo ∈ ipos -> 0 <= days_ahead ->
        parse_date (Ipo.date ipo) z = Ok (today + days_ahead) -> ipo ∈ upcoming) /\
     (forall ipo,
        parse_date (Ipo.date ipo) z = Ok (today + days_ahead + 1) -> ipo ∉ upcoming) /\
     (forall ipo,
        parse_date (Ipo.date ipo) z = Ok (today - 1) -> ipo ∉ upcoming)) /\
  (~ window_representable today days_ahead ->
   filter_upcoming w ipos days_ahead tz = Raise OverflowError).
Proof.
  intros today Hz. split; [|by apply filter_upcoming_overflow].
  intros Hw.
  exists (List.filter (in_window z today (today + days_ahead)) ipos).
  assert (Hmem : forall ipo,
    ipo ∈ List.filter (in_window z today (today + days_ahead)) ipos <->
    ipo ∈ ipos /\
    exists d, parse_date (Ipo.date ipo) z = Ok d /\ today <= d <= today + days_ahead).
  { intros ipo. by rewrite elem_of_filter, in_window_spec. }
  split; [by apply filter_upcoming_Ok|]. split; [done|]. split; [done|].
  repeat split.
  - intros ipo Hin Hd Hp. apply Hmem. split; [done|]. exists today. split; [done|lia].
  - intros ipo Hin Hd Hp. apply Hmem. split; [done|].
    exists (today + days_ahead). split; [done|lia].
  - intros ipo Hp Hin. apply Hmem in Hin as (_ & d & Hd & Hr).
    rewrite Hp in Hd. injection Hd as <-. lia.
  - intros ipo Hp Hin. apply Hmem in Hin as (_ & d & Hd & Hr).
    rewrite Hp in Hd. injection Hd as <-. lia.
Qed.

Lemma filter_upcoming_window_witness :
  filter_upcoming (sample_world full_env)
    [sample_ipo "Aug 3, 2025"; sample_ipo "Aug 4, 2025";
     sample_ipo "Aug 11, 2025"; sample_ipo "Aug 12, 2025"] 7 None
  = Ok [sample_ipo "Aug 4, 2025"; sample_ipo "Aug 11, 2025"].
Proof.
  destruct (filter_upcoming_window (sample_world full_env)
              [sample_ipo "Aug 3, 2025"; sample_ipo "Aug 4, 2025";
               sample_ipo "Aug 11, 2025"; sample_ipo "Aug 12, 2025"]
              7 None new_york eq_refl) as [Hin _].
  destruct Hin as (upcoming & -> & -> & _).
  - unfold window_representable. vm_compute. intuition congruence.
  - reflexivity.
Defined.

(** C1 as stated fails on two kinds of window.  With the clock at
    2025-08-04 and a record dated that day: a window of 3000000 days ends
    after 9999-12-31 and the call raises [OverflowError] instead of
    returning the records of the window; a window of -1 day returns the
    empty list, so the record dated [today] is not kept. *)
Lemma filter_upcoming_window_counterexample :
  parse_date "Aug 4, 2025" new_york
  = Ok (Datetime.date_of (datetime_now (sample_world full_env) new_york)) /\
  filter_upcoming (sample_world full_env) [sample_ipo "Aug 4, 2025"] 3000000
    (Some new_york) = Raise OverflowError /\
  filter_upcoming (sample_world full_env) [sample_ipo "Aug 4, 2025"] (-1)
    (Some new_york) = Ok [].
Proof. repeat split; reflexivity. Qed.

Lemma parse_date_strptime_fails date_str tz e :
  Datetime.strptime date_str = Raise e ->
  parse_date date_str tz = Raise e.
Proof. intros H. unfold parse_date. by rewrite H. Qed.

(** C4.  A record whose date does not parse under ["%b %d, %Y"] is left
    out and raises nothing: with the zone resolved and the end date
    representable, [filter_upcoming] returns, the record is not in the
    output, and the output is the one the same list without that record
    gives, which holds the other records that lie in the window. *)
Theorem filter_upcoming_skips_unparseable w before bad after days_ahead tz z e :
  resolve_tz w tz = Ok z ->
  window_representable (Datetime.date_of (datetime_now w z)) days_ahead ->
  Datetime.strptime (Ipo.date bad) = Raise e ->
  exists upcoming,
    filter_upcoming w (before ++ bad :: after) days_ahead tz = Ok upcoming /\
    (bad ∉ upcoming) /\
    filter_upcoming w (before ++ after) days_ahead tz = Ok upcoming /\
    upcoming
    = List.filter (in_window z (Datetime.date_of (datetime_now w z))
                             (Datetime.date_of (datetime_now w z) + days_ahead))
                  (before ++ after).
Proof.
  intros Hz Hw Hbad.
  set (today := Datetime.date_of (datetime_now w z)) in *.
  assert (Hout : in_window z today (today + days_ahead) bad = false).
  { unfold in_window. by rewrite (parse_date_strptime_fails _ _ _ Hbad). }
  exists (List.filter (in_window z today (today + days_ahead)) (before ++ after)).
  split; [|split; [|split]].
  - rewrite (filter_upcoming_Ok _ _ _ _ _ Hz Hw). fold today.
    by rewrite filter_app_cons_false.
  - intros Hin. apply elem_of_filter in Hin as [_ Hin]. congruence.
  - by rewrite (filter_upcoming_Ok _ _ _ _ _ Hz Hw).
  - reflexivity.
Qed.

Lemma filter_upcoming_skips_unparseable_witness :
  filter_upcoming (sample_world full_env)
    ([sample_ipo "Aug 4, 2025"] ++ sample_ipo "TBD" :: [sample_ipo "Aug 11, 2025"])
    7 None
  = Ok [sample_ipo "Aug 4, 2025"; sample_ipo "Aug 11, 2025"] /\
  filter_upcoming (sample_world full_env)
    ([sample_ipo "Aug 4, 2025"] ++ [sample_ipo "Aug 11, 2025"]) 7 None
  = Ok [sample_ipo "Aug 4, 2025"; sample_ipo "Aug 11, 2025"].
Proof.
  destruct (filter_upcoming_skips_unparseable (sample_world full_env)
              [sample_ipo "Aug 4, 2025"] (sample_ipo "TBD")
              [sample_ipo "Aug 11, 2025"] 7 None new_york ValueError)
    as (upcoming & H1 & _ & H2 & ->).
  - reflexivity.
  - unfold window_representable. vm_compute. intuition congruence.
  - reflexivity.
  - split; [exact H1 | exact H2].
Defined.

(** Dates are read the way [strptime] reads them, over all of Unicode: a
    no-break space between month and day and a year in Arabic-Indic digits
    parse, and the filter keeps the record; a no-break space left after
    the year is unconverted data, and the record is skipped. *)
Example filter_upcoming_unicode_date :
  parse_date (Ipo.date unicode_record) new_york
  = Ok (Datetime._ymd2ord 2025 8 4) /\
  Datetime.strptime (Ipo.date unicode_record +:+ nbsp) = Raise ValueError /\
  filter_upcoming (sample_world full_env)
    [unicode_record; sample_ipo ("Aug 5, 2025" +:+ nbsp); sample_ipo "TBD"] 7 None
  = Ok [unicode_record].
Proof. repeat split; reflexivity. Qed.

(** C7.  The output of [filter_upcoming] is a subsequence of its input:
    the records kept are input records, unchanged, in their input order.
    The call returns when the zone resolves and the end date is
    representable. *)
Theorem filter_upcoming_sublist w ipos days_ahead tz z :
  resolve_tz w tz = Ok z ->
  window_representable (Datetime.date_of (datetime_now w z)) days_ahead ->
  exists upcoming,
    filter_upcoming w ipos days_ahead tz = Ok upcoming /\
    sublist upcoming ipos /\
    (forall i ipo, upcoming !! i = Some ipo -> ipo ∈ ipos).
Proof.
  intros Hz Hw. eexists. split; [by apply filter_upcoming_Ok|].
  split; [apply filter_sublist|].
  intros i ipo Hi. apply list_elem_of_lookup_2 in Hi.
  by apply elem_of_filter in Hi as [? _].
Qed.

Lemma filter_upcoming_sublist_witness :
  exists upcoming,
    filter_upcoming (sample_world full_env)
      [sample_ipo "Aug 12, 2025"; sample_ipo "Aug 5, 2025"; sample_ipo "Aug 4, 2025"]
      7 (Some new_york) = Ok upcoming /\
    sublist upcoming
      [sample_ipo "Aug 12, 2025"; sample_ipo "Aug 5, 2025"; sample_ipo "Aug 4, 2025"] /\
    (forall i ipo, upcoming !! i = Some ipo ->
       ipo ∈ [sample_ipo "Aug 12, 2025"; sample_ipo "Aug 5, 2025";
              sample_ipo "Aug 4, 2025"]).
Proof.
  apply (filter_upcoming_sublist (sample_world full_env) _ 7 (Some new_york) new_york).
  - reflexivity.
  - unfold window_representable. vm_compute. intuition congruence.
Defined.

(** Whenever the call returns, what it returns is a subsequence. *)
Lemma filter_upcoming_returns_sublist w ipos days_ahead tz upcoming :
  filter_upcoming w ipos days_ahead tz = Ok upcoming -> sublist upcoming ipos.
Proof.
  intros H. apply filter_upcoming_inv in H as (z & end_date & _ & ->).
  apply filter_sublist.
Qed.

Lemma resolve_tz_default w :
  environ w !! "TIMEZONE" = None ->
  resolve_tz w None = pytz_timezone w "America/New_York".
Proof. intros H. unfold resolve_tz, getenv. by rewrite H. Qed.

(** ** The fetcher *)

Lemma row_step_spec ipos row tr :
  row_step ipos row tr
  = (Ok (ipos ++ option_list (record_of_cells (Bs4.find_all "td" row))), tr).
Proof.
  unfold row_step.
  destruct (Bs4.find_all "td" row) as [|c0 [|c1 [|c2 [|c3 [|c4 [|c5 [|c6 [|c7 rest]]]]]]]];
    try (simpl; unfold ret; by rewrite app_nil_r).
  destruct rest as [|c8 rest]; reflexivity.
Qed.

Lemma rows_loop rows ipos tr :
  foldM row_step rows ipos tr = (Ok (ipos ++ records_of_rows rows), tr).
Proof.
  revert ipos. induction rows as [|row rows IH]; intros ipos; simpl.
  - unfold ret. by rewrite app_nil_r.
  - unfold bindM. rewrite row_step_spec, IH.
    unfold records_of_rows. simpl. by rewrite <- app_assoc.
Qed.

Lemma bodies_loop bodies ipos tr :
  foldM (fun ipos tbody => foldM row_step (Bs4.find_all "tr" tbody) ipos) bodies ipos tr
  = (Ok (ipos ++ flat_map (fun tbody => records_of_rows (Bs4.find_all "tr" tbody)) bodies),
     tr).
Proof.
  revert ipos. induction bodies as [|tbody bodies IH]; intros ipos; simpl.
  - unfold ret. by rewrite app_nil_r.
  - unfold bindM. rewrite rows_loop, IH. by rewrite <- app_assoc.
Qed.

Lemma scrape_spec soup tr :
  scrape soup tr
  = match Bs4.find_all "tbody" soup with
    | [] => (Raise ValueError, tr)
    | _ => (Ok (records_of_page soup), tr)
    end.
Proof.
  unfold scrape, records_of_page.
  destruct (Bs4.find_all "tbody" soup) as [|tbody bodies] eqn:E; [done|].
  by rewrite bodies_loop.
Qed.

Lemma get_upcoming_ipos_fetched w url response tr :
  requests_get w url = Ok response ->
  raise_for_status response = Ok tt ->
  get_upcoming_ipos w url tr
  = scrape (BeautifulSoup w (text response)) (tr ++ [HttpGet url]).
Proof.
  intros Hget Hstatus. unfold get_upcoming_ipos, bindM, emit, lift.
  by rewrite Hget, Hstatus.
Qed.

Lemma record_of_cells_length cells :
  (length cells < 8)%nat <-> record_of_cells cells = None.
Proof.
  destruct cells as [|c0 [|c1 [|c2 [|c3 [|c4 [|c5 [|c6 [|c7 rest]]]]]]]];
    simpl; split; intros H; try done; try lia.
Qed.

Lemma record_of_cells_fields cells :
  (8 <= length cells)%nat ->
  exists ipo,
    record_of_cells cells = Some ipo /\
    Bs4.get_text <$> cells !! 0%nat = Some (Ipo.date ipo) /\
    Bs4.get_text <$> cells !! 1%nat = Some (Ipo.symbol ipo) /\
    Bs4.get_text <$> cells !! 2%nat = Some (Ipo.company ipo) /\
    Bs4.get_text <$> cells !! 3%nat = Some (Ipo.exchange ipo) /\
    Bs4.get_text <$> cells !! 4%nat = Some (Ipo.price_range ipo) /\
    Bs4.get_text <$> cells !! 5%nat = Some (Ipo.shares_offered ipo) /\
    Bs4.get_text <$> cells !! 6%nat = Some (Ipo.deal_size ipo) /\
    Bs4.get_text <$> cells !! 7%nat = Some (Ipo.market_cap ipo) /\
    Ipo.revenue ipo = default "-"%string (Bs4.get_text <$> cells !! 8%nat).
Proof.
  intros H.
  destruct cells as [|c0 [|c1 [|c2 [|c3 [|c4 [|c5 [|c6 [|c7 rest]]]]]]]];
    simpl in H; try lia.
  eexists. split; [reflexivity|]. simpl. repeat split.
  by destruct rest.
Qed.

Lemma elem_of_records_of_page soup ipo :
  ipo ∈ records_of_page soup <->
  exists tbody row,
    tbody ∈ Bs4.find_all "tbody" soup /\
    row ∈ Bs4.find_all "tr" tbody /\
    record_of_cells (Bs4.find_all "td" row) = Some ipo.
Proof.
  unfold records_of_page, records_of_rows.
  rewrite list_elem_of_In, in_flat_map. split.
  - intros (tbody & Hb & Hin). apply in_flat_map in Hin as (row & Hr & Hin).
    exists tbody, row. rewrite !list_elem_of_In. repeat split; try done.
    destruct (record_of_cells (Bs4.find_all "td" row)); simpl in Hin; [|done].
    destruct Hin as [->|[]]. done.
  - intros (tbody & row & Hb & Hr & Hrec). exists tbody.
    rewrite list_elem_of_In in Hb. split; [done|].
    apply in_flat_map. exists row. rewrite list_elem_of_In in Hr. split; [done|].
    rewrite Hrec. by left.
Qed.

(** A cell that holds one piece of text contributes that text, stripped. *)
Lemma get_text_single name s :
  Bs4.get_text (Bs4.Tag name [Bs4.NavigableString s]) = Str.strip s.
Proof.
  unfold Bs4.get_text, Bs4._all_strings. simpl.
  destruct (Str.strip s) as [|c t]; [done|].
  simpl. by rewrite append_empty_r.
Qed.

(** C2, amended.  Once the page is fetched and holds a table body,
    [get_upcoming_ipos] returns, in document order, one record for every
    table body and every row below it that has at least eight cells: the texts of the
    first eight cells become date, symbol, company, exchange, price_range,
    shares_offered, deal_size and market_cap, the text of the ninth cell
    becomes revenue, or ["-"] when there is none; cells after the ninth are
    ignored.  A row with fewer than eight cells contributes nothing. *)
Theorem get_upcoming_ipos_rows w url response tr :
  requests_get w url = Ok response ->
  raise_for_status response = Ok tt ->
  Bs4.find_all "tbody" (BeautifulSoup w (text response)) <> [] ->
  get_upcoming_ipos w url tr
  = (Ok (records_of_page (BeautifulSoup w (text response))), tr ++ [HttpGet url]) /\
  (forall ipo,
     ipo ∈ records_of_page (BeautifulSoup w (text response)) <->
     exists tbody row,
       tbody ∈ Bs4.find_all "tbody" (BeautifulSoup w (text response)) /\
       row ∈ Bs4.find_all "tr" tbody /\
       record_of_cells (Bs4.find_all "td" row) = Some ipo) /\
  (forall cells, (length cells < 8)%nat <-> record_of_cells cells = None) /\
  (forall cells, (8 <= length cells)%nat ->
     exists ipo,
       record_of_cells cells = Some ipo /\
       Bs4.get_text <$> cells !! 0%nat = Some (Ipo.date ipo) /\
       Bs4.get_text <$> cells !! 1%nat = Some (Ipo.symbol ipo) /\
       Bs4.get_text <$> cells !! 2%nat = Some (Ipo.company ipo) /\
       Bs4.get_text <$> cells !! 3%nat = Some (Ipo.exchange ipo) /\
       Bs4.get_text <$> cells !! 4%nat = Some (Ipo.price_range ipo) /\
       Bs4.get_text <$> cells !! 5%nat = Some (Ipo.shares_offered ipo) /\
       Bs4.get_text <$> cells !! 6%nat = Some (Ipo.deal_size ipo) /\
       Bs4.get_text <$> cells !! 7%nat = Some (Ipo.market_cap ipo) /\
       Ipo.revenue ipo = default "-"%string (Bs4.get_text <$> cells !! 8%nat)).
Proof.
  intros Hget Hstatus Hbodies. split; [|split; [|split]].
  - rewrite (get_upcoming_ipos_fetched _ _ _ _ Hget Hstatus), scrape_spec.
    by destruct (Bs4.find_all "tbody" _).
  - apply elem_of_records_of_page.
  - apply record_of_cells_length.
  - apply record_of_cells_fields.
Qed.

Lemma get_upcoming_ipos_rows_witness :
  get_upcoming_ipos (sample_world full_env) default_url []
  = (Ok [sample_record "Aug 4, 2025" "ABC"; sample_record "Aug 11, 2025" "DEF";
         sample_record "Aug 12, 2025" "GHI"; sample_record "TBD" "JKL"],
     [HttpGet default_url]).
Proof.
  destruct (get_upcoming_ipos_rows (sample_world full_env) default_url
              (mk_Response 200 "<html>...</html>") [] eq_refl eq_refl) as [H _].
  - discriminate.
  - rewrite H. reflexivity.
Defined.

(** C2 as stated fails on a row of more than nine cells: the only row of
    [ten_cell_page] has ten cells and is accepted all the same, its tenth
    cell ignored. *)
Lemma get_upcoming_ipos_rows_counterexample :
  length (Bs4.find_all "td" ten_cell_row) = 10%nat /\
  get_upcoming_ipos (world_with full_env ten_cell_page) default_url []
  = (Ok [Ipo.mk "Aug 4, 2025" "ABC" "Abc Inc" "NYSE" "$14-$16"
                "10,000,000" "$150M" "$1.2B" "$30M"],
     [HttpGet default_url]).
Proof. split; reflexivity. Qed.

(** Cell texts are trimmed the way [str.strip] trims them, over all of
    Unicode: the no-break spaces around the date and after the market
    capitalisation go, and the revenue cell that holds nothing else gives
    the empty string. *)
Example get_upcoming_ipos_unicode_cells :
  Bs4.get_text (td ("$1.2B" +:+ nbsp)) = "$1.2B"%string /\
  Bs4.get_text (td nbsp) = EmptyString /\
  scrape unicode_page [] = (Ok [unicode_record], []).
Proof. repeat split; reflexivity. Qed.

(** C6.  Once the page is fetched: if its tree holds no [tbody] at all,
    [get_upcoming_ipos] raises [ValueError]; if it holds at least one, the
    call returns a list of records and so does not raise that error. *)
Theorem get_upcoming_ipos_structural_error w url response tr :
  requests_get w url = Ok response ->
  raise_for_status response = Ok tt ->
  (Bs4.find_all "tbody" (BeautifulSoup w (text response)) = [] ->
   get_upcoming_ipos w url tr = (Raise ValueError, tr ++ [HttpGet url])) /\
  (Bs4.find_all "tbody" (BeautifulSoup w (text response)) <> [] ->
   exists ipos,
     get_upcoming_ipos w url tr = (Ok ipos, tr ++ [HttpGet url]) /\
     (get_upcoming_ipos w url tr).1 <> Raise ValueError).
Proof.
  intros Hget Hstatus.
  rewrite (get_upcoming_ipos_fetched _ _ _ _ Hget Hstatus), scrape_spec.
  split; intros Hbodies.
  - by rewrite Hbodies.
  - destruct (Bs4.find_all "tbody" _); [done|].
    eexists. split; [reflexivity | done].
Qed.

Lemma get_upcoming_ipos_structural_error_witness :
  get_upcoming_ipos (world_with full_env empty_page) default_url []
  = (Raise ValueError, [HttpGet default_url]) /\
  exists ipos,
    get_upcoming_ipos (sample_world full_env) default_url []
    = (Ok ipos, [HttpGet default_url]).
Proof.
  split.
  - destruct (get_upcoming_ipos_structural_error (world_with full_env empty_page)
                default_url (mk_Response 200 "<html>...</html>") [] eq_refl eq_refl)
      as [H _].
    apply H. reflexivity.
  - destruct (get_upcoming_ipos_structural_error (sample_world full_env)
                default_url (mk_Response 200 "<html>...</html>") [] eq_refl eq_refl)
      as [_ H].
    destruct H as (ipos & H & _); [discriminate|].
    exists ipos. exact H.
Defined.

(** ** The composer *)

Lemma compose_loop ipos lines html_rows :
  fold_left compose_step ipos (lines, html_rows)
  = (lines ++ map text_line ipos, html_rows ++ map html_row ipos).
Proof.
  revert lines html_rows.
  induction ipos as [|ipo ipos IH]; intros lines html_rows; simpl.
  - by rewrite !app_nil_r.
  - by rewrite IH, <- !app_assoc.
Qed.

(** [compose_email] resolves the zone, reads the two addresses and builds
    [message]. *)
Lemma compose_email_message w ipos tz :
  compose_email w ipos tz
  = (let* z := resolve_tz w tz in
     let* sender := environ_getitem w "GMAIL_USER" in
     let* recipient := environ_getitem w "RECIPIENT" in
     Ok (message (Datetime.strftime (datetime_now w z)) sender recipient ipos)).
Proof.
  unfold compose_email.
  destruct (resolve_tz w tz) as [z|e]; [|reflexivity]. cbn [bind].
  destruct (environ_getitem w "GMAIL_USER") as [sender|e]; [|reflexivity]. cbn [bind].
  destruct (environ_getitem w "RECIPIENT") as [recipient|e]; [|reflexivity]. cbn [bind].
  destruct ipos as [|ipo ipos]; [reflexivity|].
  rewrite compose_loop. reflexivity.
Qed.

(** The world [compose_email] finds in a run differs only by the clock. *)
Lemma compose_email_after_reading w ipos tz :
  compose_email (after_reading w) ipos tz
  = (let* z := resolve_tz w tz in
     let* sender := environ_getitem w "GMAIL_USER" in
     let* recipient := environ_getitem w "RECIPIENT" in
     Ok (message (Datetime.strftime (datetime_now (after_reading w) z))
                 sender recipient ipos)).
Proof. rewrite compose_email_message. destruct tz; reflexivity. Qed.

Lemma compose_email_Ok w ipos tz z sender recipient :
  resolve_tz w tz = Ok z ->
  environ w !! "GMAIL_USER" = Some sender ->
  environ w !! "RECIPIENT" = Some recipient ->
  compose_email w ipos tz
  = Ok (message (Datetime.strftime (datetime_now w z)) sender recipient ipos).
Proof.
  intros Hz Hs Hr. rewrite compose_email_message, Hz.
  unfold environ_getitem. rewrite Hs, Hr. reflexivity.
Qed.

(** ** The fallback zone *)

(** C9.  With [TIMEZONE] unset and no [tz] argument, the zone of
    [filter_upcoming] and of [compose_email] is
    [pytz.timezone('America/New_York')], and it is in that zone that each
    reads the clock: the window of the filter starts at the date the clock
    shows in New York and its dates are localized there, and the as-of
    date of the message is the date in New York.  Both behave as if they
    had been given that zone, also when the zone database fails. *)
Theorem default_timezone_new_york w ipos days_ahead :
  environ w !! "TIMEZONE" = None ->
  resolve_tz w None = pytz_timezone w "America/New_York" /\
  filter_upcoming w ipos days_ahead None
  = (let* tz := pytz_timezone w "America/New_York" in
     filter_upcoming w ipos days_ahead (Some tz)) /\
  compose_email w ipos None
  = (let* tz := pytz_timezone w "America/New_York" in
     compose_email w ipos (Some tz)) /\
  forall ny,
    pytz_timezone w "America/New_York" = Ok ny ->
    let today := Datetime.date_of (datetime_now w ny) in
    (window_representable today days_ahead ->
     filter_upcoming w ipos days_ahead None
     = Ok (List.filter (in_window ny today (today + days_ahead)) ipos)) /\
    (forall sender recipient,
       environ w !! "GMAIL_USER" = Some sender ->
       environ w !! "RECIPIENT" = Some recipient ->
       compose_email w ipos None
       = Ok (message (Datetime.strftime (datetime_now w ny)) sender recipient ipos)).
Proof.
  intros H. pose proof (resolve_tz_default _ H) as Hz.
  split; [exact Hz|]. split; [|split].
  - unfold filter_upcoming. rewrite Hz.
    by destruct (pytz_timezone w "America/New_York").
  - unfold compose_email. rewrite Hz.
    by destruct (pytz_timezone w "America/New_York").
  - intros ny Hny today. rewrite Hny in Hz. split.
    + intros Hw. by apply filter_upcoming_Ok.
    + intros sender recipient Hs Hr. by apply compose_email_Ok.
Qed.

Lemma default_timezone_new_york_witness :
  filter_upcoming (sample_world full_env)
    [sample_ipo "Aug 4, 2025"; sample_ipo "Sep 1, 2025"] 7 None
  = Ok [sample_ipo "Aug 4, 2025"] /\
  exists msg,
    compose_email (sample_world full_env)
      [sample_ipo "Aug 4, 2025"; sample_ipo "Sep 1, 2025"] None = Ok msg /\
    Subject msg = "Upcoming IPOs – Week of August 04, 2025"%string.
Proof.
  destruct (default_timezone_new_york (sample_world full_env)
              [sample_ipo "Aug 4, 2025"; sample_ipo "Sep 1, 2025"] 7 eq_refl)
    as (_ & _ & _ & H).
  destruct (H new_york eq_refl) as [Hf Hc].
  split.
  - rewrite Hf; [reflexivity|].
    unfold window_representable. vm_compute. intuition congruence.
  - rewrite (Hc "sender@example.com" "reader@example.com" eq_refl eq_refl)%string.
    eexists. split; reflexivity.
Defined.

Lemma same_but_revenue_lines a b :
  same_but_revenue a b -> text_line a = text_line b /\ html_row a = html_row b.
Proof.
  intros (H1 & H2 & H3 & H4 & H5 & H6 & H7 & H8).
  unfold text_line, html_row.
  by rewrite H1, H2, H3, H4, H5, H6, H7, H8.
Qed.

Lemma same_but_revenue_message subject_date sender recipient ipos1 ipos2 :
  Forall2 same_but_revenue ipos1 ipos2 ->
  message subject_date sender recipient ipos1
  = message subject_date sender recipient ipos2.
Proof.
  intros H.
  assert (Hmaps : map text_line ipos1 = map text_line ipos2 /\
                  map html_row ipos1 = map html_row ipos2).
  { induction H as [|a b l1 l2 Hab _ [IHl IHr]]; cbn [map]; [done|].
    destruct (same_but_revenue_lines _ _ Hab) as [-> ->]. by rewrite IHl, IHr. }
  destruct Hmaps as [Hl Hr].
  unfold message, plain_body, html_body. rewrite Hl, Hr.
  by destruct H.
Qed.

(** C8.  Two lists of records of equal length that agree, position by
    position, on every field but [revenue] give the same message, hence the
    same plain-text and HTML bodies, under the same environment, clock and
    zone: the bodies are built from the other eight fields alone. *)
Theorem compose_email_ignores_revenue w tz ipos1 ipos2 :
  Forall2 same_but_revenue ipos1 ipos2 ->
  compose_email w ipos1 tz = compose_email w ipos2 tz.
Proof.
  intros H. rewrite !compose_email_message.
  destruct (resolve_tz w tz) as [z|e]; [|reflexivity]. cbn [bind].
  destruct (environ_getitem w "GMAIL_USER") as [sender|e]; [|reflexivity]. cbn [bind].
  destruct (environ_getitem w "RECIPIENT") as [recipient|e]; [|reflexivity]. cbn [bind].
  by rewrite (same_but_revenue_message _ _ _ _ _ H).
Qed.

Lemma compose_email_ignores_revenue_witness :
  compose_email (sample_world full_env)
    [Ipo.mk "Aug 4, 2025" "ABC" "Abc Inc" "NYSE" "$14-$16" "10,000,000" "$150M" "$1.2B" "-"]
    None
  = compose_email (sample_world full_env)
    [Ipo.mk "Aug 4, 2025" "ABC" "Abc Inc" "NYSE" "$14-$16" "10,000,000" "$150M" "$1.2B" "$30M"]
    None /\
  exists msg,
    compose_email (sample_world full_env)
      [Ipo.mk "Aug 4, 2025" "ABC" "Abc Inc" "NYSE" "$14-$16" "10,000,000" "$150M" "$1.2B" "$30M"]
      None = Ok msg.
Proof.
  split.
  - apply compose_email_ignores_revenue.
    constructor; [|constructor]. unfold same_but_revenue. simpl. repeat split.
  - eexists. reflexivity.
Defined.







(** *** Counting lines and row markers *)


















(** ** The whole run *)

Lemma get_upcoming_ipos_trace w url tr :
  (get_upcoming_ipos w url tr).2 = tr ++ [HttpGet url].
Proof.
  unfold get_upcoming_ipos, bindM, emit, lift.
  destruct (requests_get w url) as [response|e]; [|done].
  destruct (raise_for_status response) as [[]|e]; [|done].
  rewrite scrape_spec. by destruct (Bs4.find_all "tbody" _).
Qed.

(** A run that lacks a required variable ends in an exception, before any
    event of the mail session. *)
Lemma pipeline_missing_configuration w :
  missing_configuration w ->
  exists exc tr, pipeline w [] = (Raise exc, tr) /\ no_smtp tr = true.
Proof.
  intros Hmiss. unfold pipeline, bindM.
  pose proof (get_upcoming_ipos_trace w default_url []) as Htr.
  destruct (get_upcoming_ipos w default_url []) as [[all_ipos|e] tr];
    simpl in Htr; subst tr; [|by eexists _, _].
  unfold emit, lift. cbn [app].
  destruct (filter_upcoming w all_ipos 7 None) as [upcoming|e]; [|by eexists _, _].
  rewrite compose_email_after_reading.
  destruct (resolve_tz w None) as [z|e]; [|by eexists _, _]. cbn [bind].
  unfold environ_getitem at 1.
  destruct (environ w !! "GMAIL_USER") as [sender|] eqn:Hu; [|by eexists _, _].
  cbn [bind]. unfold environ_getitem at 1.
  destruct (environ w !! "RECIPIENT") as [recipient|] eqn:Hr; [|by eexists _, _].
  cbn [bind]. unfold send_email, bindM, lift, environ_getitem. rewrite Hu.
  destruct (environ w !! "GMAIL_PASS") as [password|] eqn:Hp; [|by eexists _, _].
  destruct Hmiss as [H|[H|H]]; congruence.
Qed.

(** C5.  When one of [GMAIL_USER], [GMAIL_PASS], [RECIPIENT] is absent from
    the environment, the process ends with exit status 1 and its events
    hold no connection to the mail server nor any other event of a mail
    session.  Reading an absent variable raises [KeyError] on the spot; in
    a run whose fetch and filter stages succeed, the exception logged is
    the [KeyError] of the first absent variable in reading order. *)
Theorem main_missing_configuration w :
  missing_configuration w ->
  (main w).2 = 1 /\
  no_smtp (main w).1 = true /\
  (forall host port, SmtpConnect host port ∉ (main w).1) /\
  (forall key, environ w !! key = None -> environ_getitem w key = Raise (KeyError key)) /\
  (forall all_ipos upcoming tr,
     get_upcoming_ipos w default_url [] = (Ok all_ipos, tr) ->
     filter_upcoming w all_ipos 7 None = Ok upcoming ->
     exists key,
       first_missing w = Some key /\
       main w = (tr ++ [Log INFO (Fetched_total (length all_ipos));
                        Log INFO (Found_upcoming (length upcoming));
                        Log ERROR (Error_occurred (KeyError key))], 1)).
Proof.
  intros Hmiss.
  destruct (pipeline_missing_configuration w Hmiss) as (exc & tr & Hp & Hsafe).
  assert (Hmain : main w = (tr ++ [Log ERROR (Error_occurred exc)], 1)).
  { unfold main. by rewrite Hp. }
  assert (Hno : no_smtp (main w).1 = true).
  { rewrite Hmain. unfold no_smtp in *. simpl.
    rewrite forallb_app, Hsafe. reflexivity. }
  split; [by rewrite Hmain|]. split; [done|]. split; [|split].
  - intros host port Hin. unfold no_smtp in Hno.
    rewrite forallb_forall in Hno. apply list_elem_of_In in Hin.
    by specialize (Hno _ Hin).
  - intros key Hkey. unfold environ_getitem. by rewrite Hkey.
  - intros all_ipos upcoming tr0 Hget Hfilter.
    destruct (filter_upcoming_inv _ _ _ _ _ Hfilter) as (z & _ & Hz & _).
    unfold main, pipeline, bindM, first_missing, is_missing.
    rewrite Hget. unfold emit, lift. rewrite Hfilter.
    rewrite compose_email_after_reading, Hz. cbn [bind List.find].
    unfold environ_getitem at 1.
    destruct (environ w !! "GMAIL_USER") as [sender|] eqn:Hu.
    2:{ eexists. split; [reflexivity|]. cbn [bind]. by rewrite <- !app_assoc. }
    cbn [bind]. unfold environ_getitem at 1.
    destruct (environ w !! "RECIPIENT") as [recipient|] eqn:Hr.
    2:{ eexists. split; [reflexivity|]. cbn [bind]. by rewrite <- !app_assoc. }
    cbn [bind]. unfold send_email, bindM, lift, environ_getitem. rewrite Hu.
    destruct (environ w !! "GMAIL_PASS") as [password|] eqn:Hpw.
    { destruct Hmiss as [H|[H|H]]; congruence. }
    eexists. split; [reflexivity|]. by rewrite <- !app_assoc.
Qed.

Lemma main_missing_configuration_witness :
  main (sample_world env_without_pass)
  = ([HttpGet default_url;
      Log INFO (Fetched_total 4);
      Log INFO (Found_upcoming 2);
      Log ERROR (Error_occurred (KeyError "GMAIL_PASS"))], 1).
Proof.
  destruct (main_missing_configuration (sample_world env_without_pass))
    as (_ & _ & _ & _ & Hrun).
  - right. left. reflexivity.
  - destruct (Hrun _ _ _ eq_refl eq_refl) as (key & Hkey & Hmain).
    vm_compute in Hkey. injection Hkey as <-.
    exact Hmain.
Defined.

(** With every variable set the same run reaches the mail server and ends
    with status 0. *)
Example main_full_configuration :
  main (sample_world full_env)
  = ([HttpGet default_url;
      Log INFO (Fetched_total 4);
      Log INFO (Found_upcoming 2);
      SmtpConnect "smtp.gmail.com" 465;
      SmtpLogin "sender@example.com" "app-password";
      SmtpSendmail "sender@example.com" ["reader@example.com"]
        (message "August 04, 2025" "sender@example.com" "reader@example.com"
           [sample_record "Aug 4, 2025" "ABC"; sample_record "Aug 11, 2025" "DEF"]);
      SmtpQuit; SmtpClose;
      Log INFO (Email_sent "reader@example.com")], 0).
Proof. vm_compute. reflexivity. Qed.

(** * Further properties *)

(** ** More on the date filter *)

(** [filter_upcoming] sets its window up, then filters: the set-up does not
    look at the records. *)
Lemma filter_upcoming_filter w ipos days_ahead tz :
  filter_upcoming w ipos days_ahead tz
  = (let* z := resolve_tz w tz in
     let* delta := Datetime.timedelta_days days_ahead in
     let* end_date := Datetime.date_add (Datetime.date_of (datetime_now w z)) delta in
     Ok (List.filter (in_window z (Datetime.date_of (datetime_now w z)) end_date) ipos)).
Proof.
  unfold filter_upcoming.
  destruct (resolve_tz w tz) as [z|e]; [|done]. cbn [bind].
  destruct (Datetime.timedelta_days days_ahead) as [delta|e]; [|done]. cbn [bind].
  destruct (Datetime.date_add _ delta) as [end_date|e]; [|done]. cbn [bind].
  by rewrite filter_loop.
Qed.

Lemma filter_filter_same {A : Type} (f : A -> bool) (l : list A) :
  List.filter f (List.filter f l) = List.filter f l.
Proof.
  induction l as [|x l IH]; [done|]. simpl.
  destruct (f x) eqn:E; [|done]. simpl. by rewrite E, IH.
Qed.

Lemma filter_sublist_weaken {A : Type} (f g : A -> bool) (l : list A) :
  (forall x, f x = true -> g x = true) ->
  sublist (List.filter f l) (List.filter g l).
Proof.
  intros H. induction l as [|x l IH]; simpl; [constructor|].
  destruct (f x) eqn:E.
  - rewrite (H _ E). by constructor.
  - destruct (g x); [by constructor | done].
Qed.

(** Filtering the output again, under the same clock and zone, changes
    nothing. *)
Theorem filter_upcoming_idempotent w ipos days_ahead tz upcoming :
  filter_upcoming w ipos days_ahead tz = Ok upcoming ->
  filter_upcoming w upcoming days_ahead tz = Ok upcoming.
Proof.
  rewrite !filter_upcoming_filter.
  destruct (resolve_tz w tz) as [z|e]; [|done]. cbn [bind].
  destruct (Datetime.timedelta_days days_ahead) as [delta|e]; [|done]. cbn [bind].
  destruct (Datetime.date_add _ delta) as [end_date|e]; [|done]. cbn [bind].
  intros [= <-]. by rewrite filter_filter_same.
Qed.

Lemma filter_upcoming_idempotent_witness :
  filter_upcoming (sample_world full_env)
    [sample_ipo "Aug 4, 2025"; sample_ipo "Aug 11, 2025"] 7 None
  = Ok [sample_ipo "Aug 4, 2025"; sample_ipo "Aug 11, 2025"].
Proof.
  apply (filter_upcoming_idempotent (sample_world full_env)
           [sample_ipo "Aug 3, 2025"; sample_ipo "Aug 4, 2025";
            sample_ipo "Aug 11, 2025"; sample_ipo "Aug 12, 2025"]).
  reflexivity.
Defined.

(** Filtering two batches one after the other and joining the outputs
    gives what filtering the joined batches gives. *)
Theorem filter_upcoming_app w ipos1 ipos2 days_ahead tz upcoming1 upcoming2 :
  filter_upcoming w ipos1 days_ahead tz = Ok upcoming1 ->
  filter_upcoming w ipos2 days_ahead tz = Ok upcoming2 ->
  filter_upcoming w (ipos1 ++ ipos2) days_ahead tz = Ok (upcoming1 ++ upcoming2).
Proof.
  rewrite !filter_upcoming_filter.
  destruct (resolve_tz w tz) as [z|e]; [|done]. cbn [bind].
  destruct (Datetime.timedelta_days days_ahead) as [delta|e]; [|done]. cbn [bind].
  destruct (Datetime.date_add _ delta) as [end_date|e]; [|done]. cbn [bind].
  intros [= <-] [= <-]. by rewrite List.filter_app.
Qed.

Lemma filter_upcoming_app_witness :
  filter_upcoming (sample_world full_env)
    ([sample_ipo "Aug 3, 2025"; sample_ipo "Aug 4, 2025"]
     ++ [sample_ipo "Aug 11, 2025"; sample_ipo "Aug 12, 2025"]) 7 None
  = Ok ([sample_ipo "Aug 4, 2025"] ++ [sample_ipo "Aug 11, 2025"]).
Proof.
  apply filter_upcoming_app; reflexivity.
Defined.

(** A longer window keeps everything a shorter one keeps, in the same
    order. *)
Theorem filter_upcoming_monotone w ipos days1 days2 tz upcoming1 upcoming2 :
  days1 <= days2 ->
  filter_upcoming w ipos days1 tz = Ok upcoming1 ->
  filter_upcoming w ipos days2 tz = Ok upcoming2 ->
  sublist upcoming1 upcoming2.
Proof.
  intros Hle. rewrite !filter_upcoming_filter.
  destruct (resolve_tz w tz) as [z|e]; [|done]. cbn [bind].
  unfold Datetime.timedelta_days.
  destruct ((-999999999 <=? days1) && (days1 <=? 999999999)); [|done].
  destruct ((-999999999 <=? days2) && (days2 <=? 999999999)); [|done].
  cbn [bind]. unfold Datetime.date_add.
  set (today := Datetime.date_of (datetime_now w z)).
  destruct ((0 <? today + days1) && (today + days1 <=? Datetime._MAXORDINAL)); [|done].
  destruct ((0 <? today + days2) && (today + days2 <=? Datetime._MAXORDINAL)); [|done].
  cbn [bind]. intros [= <-] [= <-].
  apply filter_sublist_weaken. intros ipo.
  rewrite !in_window_spec. intros (d & Hd & Hr). exists d. split; [done | lia].
Qed.

Lemma filter_upcoming_monotone_witness :
  sublist [sample_ipo "Aug 4, 2025"]
          [sample_ipo "Aug 4, 2025"; sample_ipo "Aug 11, 2025"].
Proof.
  apply (filter_upcoming_monotone (sample_world full_env)
           [sample_ipo "Aug 3, 2025"; sample_ipo "Aug 4, 2025";
            sample_ipo "Aug 11, 2025"; sample_ipo "Aug 12, 2025"]
           3 7 None).
  - lia.
  - reflexivity.
  - reflexivity.
Defined.

(** ** Configuration *)

(** [TIMEZONE] is read only when no [tz] argument is given.  With an
    explicit zone, setting or changing [TIMEZONE] changes neither function;
    without one, the zone is [pytz.timezone] of the variable's value, and an
    error of that look-up comes out of both functions as it is, whatever the
    records and the other variables. *)
Theorem timezone_variable_scope w ipos days_ahead :
  (forall tz name,
     filter_upcoming (set_environ w (<["TIMEZONE" := name]> (environ w)))
                     ipos days_ahead (Some tz)
     = filter_upcoming w ipos days_ahead (Some tz) /\
     compose_email (set_environ w (<["TIMEZONE" := name]> (environ w)))
                   ipos (Some tz)
     = compose_email w ipos (Some tz)) /\
  (forall name,
     environ w !! "TIMEZONE" = Some name ->
     resolve_tz w None = pytz_timezone w name) /\
  (forall name exc,
     environ w !! "TIMEZONE" = Some name ->
     pytz_timezone w name = Raise exc ->
     filter_upcoming w ipos days_ahead None = Raise exc /\
     compose_email w ipos None = Raise exc).
Proof.
  split; [|split].
  - intros tz name. split; [reflexivity|].
    rewrite !compose_email_message. cbn [resolve_tz bind].
    unfold environ_getitem, set_environ. cbn [environ datetime_now].
    by rewrite !lookup_insert_ne.
  - intros name H. unfold resolve_tz, getenv. by rewrite H.
  - intros name exc H He.
    assert (Hr : resolve_tz w None = Raise exc).
    { unfold resolve_tz, getenv. by rewrite H. }
    rewrite filter_upcoming_filter, compose_email_message, Hr. done.
Qed.

Lemma timezone_variable_scope_witness :
  filter_upcoming (sample_world (<["TIMEZONE" := "Mars/Olympus"]> full_env))
    [sample_ipo "Aug 4, 2025"] 7 None
  = Raise (UnknownTimeZoneError "Mars/Olympus") /\
  compose_email (sample_world (<["TIMEZONE" := "Mars/Olympus"]> full_env))
    [sample_ipo "Aug 4, 2025"] None
  = Raise (UnknownTimeZoneError "Mars/Olympus").
Proof.
  destruct (timezone_variable_scope
              (sample_world (<["TIMEZONE" := "Mars/Olympus"]> full_env))
              [sample_ipo "Aug 4, 2025"] 7) as (_ & _ & H).
  apply (H "Mars/Olympus"); reflexivity.
Defined.

(** [compose_email] needs the two addresses and nothing else of the
    configuration: without [GMAIL_USER] it raises [KeyError] for it, with
    it but without [RECIPIENT] it raises [KeyError] for that one, also for
    the empty list; whether [GMAIL_PASS] is set makes no difference. *)
Theorem compose_email_configuration w ipos tz z :
  resolve_tz w tz = Ok z ->
  (environ w !! "GMAIL_USER" = None ->
   compose_email w ipos tz = Raise (KeyError "GMAIL_USER")) /\
  (forall sender,
     environ w !! "GMAIL_USER" = Some sender ->
     environ w !! "RECIPIENT" = None ->
     compose_email w ipos tz = Raise (KeyError "RECIPIENT")) /\
  compose_email (set_environ w (delete "GMAIL_PASS" (environ w))) ipos tz
  = compose_email w ipos tz.
Proof.
  intros Hz. split; [|split].
  - intros H. rewrite compose_email_message, Hz. unfold environ_getitem.
    by rewrite H.
  - intros sender Hs Hr. rewrite compose_email_message, Hz. unfold environ_getitem.
    by rewrite Hs, Hr.
  - rewrite !compose_email_message.
    assert (Hres : resolve_tz (set_environ w (delete "GMAIL_PASS" (environ w))) tz
                   = resolve_tz w tz).
    { destruct tz as [tz|]; [done|].
      unfold resolve_tz, getenv, set_environ. cbn [environ pytz_timezone].
      by rewrite lookup_delete_ne. }
    rewrite Hres, Hz. cbn [bind].
    unfold environ_getitem, set_environ. cbn [environ datetime_now].
    by rewrite !lookup_delete_ne.
Qed.

Lemma compose_email_configuration_witness :
  compose_email (sample_world env_without_user) [] None
  = Raise (KeyError "GMAIL_USER") /\
  compose_email (sample_world env_without_recipient) [] None
  = Raise (KeyError "RECIPIENT") /\
  compose_email
    (set_environ (sample_world full_env)
                 (delete "GMAIL_PASS" (environ (sample_world full_env)))) [] None
  = compose_email (sample_world full_env) [] None.
Proof.
  split; [|split].
  - destruct (compose_email_configuration
                (sample_world env_without_user) [] None new_york eq_refl)
      as (H & _ & _).
    apply H. reflexivity.
  - destruct (compose_email_configuration
                (sample_world env_without_recipient) [] None new_york eq_refl)
      as (_ & H & _).
    apply (H "sender@example.com"); reflexivity.
  - destruct (compose_email_configuration
                (sample_world full_env) [] None new_york eq_refl)
      as (_ & _ & H).
    exact H.
Defined.



(** ** The dispatcher *)

(** [send_email] reads its three variables before it touches the network:
    when one is absent it raises [KeyError] for the first absent one, in
    the order [GMAIL_USER], [GMAIL_PASS], [RECIPIENT], and adds no event. *)
Theorem send_email_missing_variable w msg tr key :
  first_missing_send w = Some key ->
  send_email w msg tr = (Raise (KeyError key), tr).
Proof.
  unfold first_missing_send, is_missing, send_email, bindM, lift, environ_getitem.
  cbn [List.find].
  destruct (environ w !! "GMAIL_USER"); [|by intros [= <-]].
  destruct (environ w !! "GMAIL_PASS"); [|by intros [= <-]].
  destruct (environ w !! "RECIPIENT"); [done | by intros [= <-]].
Qed.

Lemma send_email_missing_variable_witness :
  send_email (sample_world env_without_recipient)
    (message "August 04, 2025" "a" "b" []) [HttpGet default_url]
  = (Raise (KeyError "RECIPIENT"), [HttpGet default_url]).
Proof.
  apply send_email_missing_variable. reflexivity.
Defined.

(** Once the connection is open it is closed on every path: whatever
    [login], [sendmail] and QUIT do, the events of [send_email] are the
    connection, then the events of the session, then QUIT and the close of
    the socket, and after them at most the line that reports success.  When
    the connection cannot be opened nothing follows the attempt. *)
Theorem send_email_closes_connection w msg tr user password recipient :
  environ w !! "GMAIL_USER" = Some user ->
  environ w !! "GMAIL_PASS" = Some password ->
  environ w !! "RECIPIENT" = Some recipient ->
  (forall exc,
     smtp_connect w "smtp.gmail.com" 465 = Raise exc ->
     send_email w msg tr = (Raise exc, tr ++ [SmtpConnect "smtp.gmail.com" 465])) /\
  (smtp_connect w "smtp.gmail.com" 465 = Ok tt ->
   exists session after,
     (send_email w msg tr).2
     = tr ++ SmtpConnect "smtp.gmail.com" 465 :: session
          ++ [SmtpQuit; SmtpClose] ++ after /\
     (session = [SmtpLogin user password] \/
      session = [SmtpLogin user password; SmtpSendmail user [recipient] msg]) /\
     (after = [] \/ after = [Log INFO (Email_sent recipient)])).
Proof.
  intros Hu Hp Hr.
  unfold send_email, with_server, bindM, lift, emit, environ_getitem.
  rewrite Hu, Hp, Hr. split.
  - intros exc He. by rewrite He.
  - intros Hc. rewrite Hc.
    destruct (smtp_login w user password) as [[]|e1].
    + destruct (smtp_sendmail w user [recipient] msg) as [[]|e2];
        destruct (smtp_quit w) as [[]|e3]; cbn [snd];
        eexists [_; _], _; (split; [by rewrite <- !app_assoc|]);
        (split; [by right|]); (by left) || (by right).
    + destruct (smtp_quit w) as [[]|e3]; cbn [snd];
        eexists [_], _; (split; [by rewrite <- !app_assoc|]);
        (split; [by left|]); by left.
Qed.

Lemma send_email_closes_connection_witness :
  exists session after,
    (send_email (sample_world full_env) (message "August 04, 2025" "a" "b" []) []).2
    = [] ++ SmtpConnect "smtp.gmail.com" 465 :: session
         ++ [SmtpQuit; SmtpClose] ++ after.
Proof.
  destruct (send_email_closes_connection (sample_world full_env)
              (message "August 04, 2025" "a" "b" []) []
              "sender@example.com" "app-password" "reader@example.com"
              eq_refl eq_refl eq_refl) as [_ H].
  destruct (H eq_refl) as (session & after & Htr & _).
  exists session, after. exact Htr.
Defined.

(** The four outcomes of a session, with the variables set. *)
Lemma send_email_run w msg tr user password recipient :
  environ w !! "GMAIL_USER" = Some user ->
  environ w !! "GMAIL_PASS" = Some password ->
  environ w !! "RECIPIENT" = Some recipient ->
  send_email w msg tr
  = match smtp_connect w "smtp.gmail.com" 465 with
    | Raise exc => (Raise exc, tr ++ [SmtpConnect "smtp.gmail.com" 465])
    | Ok _ =>
        match smtp_login w user password with
        | Raise exc =>
            (match smtp_quit w with Raise exc' => Raise exc' | Ok _ => Raise exc end,
             tr ++ [SmtpConnect "smtp.gmail.com" 465; SmtpLogin user password;
                    SmtpQuit; SmtpClose])
        | Ok _ =>
            match smtp_sendmail w user [recipient] msg with
            | Raise exc =>
                (match smtp_quit w with Raise exc' => Raise exc' | Ok _ => Raise exc end,
                 tr ++ [SmtpConnect "smtp.gmail.com" 465; SmtpLogin user password;
                        SmtpSendmail user [recipient] msg; SmtpQuit; SmtpClose])
            | Ok _ =>
                match smtp_quit w with
                | Raise exc =>
                    (Raise exc,
                     tr ++ [SmtpConnect "smtp.gmail.com" 465; SmtpLogin user password;
                            SmtpSendmail user [recipient] msg; SmtpQuit; SmtpClose])
                | Ok _ =>
                    (Ok tt,
                     tr ++ [SmtpConnect "smtp.gmail.com" 465; SmtpLogin user password;
                            SmtpSendmail user [recipient] msg; SmtpQuit; SmtpClose;
                            Log INFO (Email_sent recipient)])
                end
            end
        end
    end.
Proof.
  intros Hu Hp Hr.
  unfold send_email, with_server, bindM, lift, emit, environ_getitem.
  rewrite Hu, Hp, Hr.
  destruct (smtp_connect w "smtp.gmail.com" 465) as [[]|e0]; [|done].
  destruct (smtp_login w user password) as [[]|e1].
  - destruct (smtp_sendmail w user [recipient] msg) as [[]|e2];
      destruct (smtp_quit w) as [[]|e3]; by rewrite <- !app_assoc.
  - destruct (smtp_quit w) as [[]|e3]; by rewrite <- !app_assoc.
Qed.

Lemma count_events_app p tr1 tr2 :
  count_events p (tr1 ++ tr2) = (count_events p tr1 + count_events p tr2)%nat.
Proof. unfold count_events. by rewrite List.filter_app, length_app. Qed.

(** [send_email] returns only when the connection, the login, the
    submission and QUIT all succeed, and then the message went out once, from
    the configured sender to the one configured recipient, and success was
    logged; when the login fails no submission is attempted. *)
Theorem send_email_outcome w msg tr user password recipient :
  environ w !! "GMAIL_USER" = Some user ->
  environ w !! "GMAIL_PASS" = Some password ->
  environ w !! "RECIPIENT" = Some recipient ->
  ((send_email w msg tr).1 = Ok tt <->
   smtp_connect w "smtp.gmail.com" 465 = Ok tt /\
   smtp_login w user password = Ok tt /\
   smtp_sendmail w user [recipient] msg = Ok tt /\
   smtp_quit w = Ok tt) /\
  ((send_email w msg tr).1 = Ok tt ->
   (send_email w msg tr).2
   = tr ++ [SmtpConnect "smtp.gmail.com" 465; SmtpLogin user password;
            SmtpSendmail user [recipient] msg; SmtpQuit; SmtpClose;
            Log INFO (Email_sent recipient)]) /\
  (forall exc,
     smtp_login w user password = Raise exc ->
     count_events is_sendmail (send_email w msg tr).2 = count_events is_sendmail tr /\
     exists exc', (send_email w msg tr).1 = Raise exc').
Proof.
  intros Hu Hp Hr. rewrite (send_email_run _ _ _ _ _ _ Hu Hp Hr).
  destruct (smtp_connect w "smtp.gmail.com" 465) as [[]|e0];
    destruct (smtp_login w user password) as [[]|e1];
    destruct (smtp_sendmail w user [recipient] msg) as [[]|e2];
    destruct (smtp_quit w) as [[]|e3]; cbn [fst snd];
    (split; [|split]);
    try (split; [done | by intros (H0 & H1 & H2 & H3)]);
    try done;
    intros exc Hexc; try discriminate Hexc;
    (split; [rewrite count_events_app; unfold count_events; simpl; lia
            | by eexists]).
Qed.

Lemma send_email_outcome_witness :
  (send_email (sample_world full_env) (message "August 04, 2025" "a" "b" []) []).2
  = [] ++ [SmtpConnect "smtp.gmail.com" 465;
           SmtpLogin "sender@example.com" "app-password";
           SmtpSendmail "sender@example.com" ["reader@example.com"]
             (message "August 04, 2025" "a" "b" []);
           SmtpQuit; SmtpClose; Log INFO (Email_sent "reader@example.com")].
Proof.
  destruct (send_email_outcome (sample_world full_env)
              (message "August 04, 2025" "a" "b" []) []
              "sender@example.com" "app-password" "reader@example.com"
              eq_refl eq_refl eq_refl) as (_ & H & _).
  apply H. reflexivity.
Defined.

(** ** More on the whole run *)

(** The stages of [pipeline], one after the other. *)
Lemma pipeline_stages w :
  pipeline w []
  = match (get_upcoming_ipos w default_url []).1 with
    | Raise exc => (Raise exc, [HttpGet default_url])
    | Ok all_ipos =>
        match filter_upcoming w all_ipos 7 None with
        | Raise exc =>
            (Raise exc,
             [HttpGet default_url; Log INFO (Fetched_total (length all_ipos))])
        | Ok upcoming =>
            match compose_email (after_reading w) upcoming None with
            | Raise exc =>
                (Raise exc,
                 [HttpGet default_url; Log INFO (Fetched_total (length all_ipos));
                  Log INFO (Found_upcoming (length upcoming))])
            | Ok msg =>
                send_email w msg
                  [HttpGet default_url; Log INFO (Fetched_total (length all_ipos));
                   Log INFO (Found_upcoming (length upcoming))]
            end
        end
    end.
Proof.
  unfold pipeline, bindM.
  pose proof (get_upcoming_ipos_trace w default_url []) as Htr.
  destruct (get_upcoming_ipos w default_url []) as [[all_ipos|e] tr];
    simpl in Htr; subst tr; cbn [fst app]; [|done].
  unfold emit, lift. cbn [app].
  destruct (filter_upcoming w all_ipos 7 None) as [upcoming|e]; [|done]. cbn [app].
  by destruct (compose_email (after_reading w) upcoming None).
Qed.

Lemma environ_cases w :
  (exists key, first_missing_send w = Some key) \/
  (exists user password recipient,
     environ w !! "GMAIL_USER" = Some user /\
     environ w !! "GMAIL_PASS" = Some password /\
     environ w !! "RECIPIENT" = Some recipient).
Proof.
  unfold first_missing_send, is_missing. cbn [List.find].
  destruct (environ w !! "GMAIL_USER") as [user|]; [|left; by eexists].
  destruct (environ w !! "GMAIL_PASS") as [password|]; [|left; by eexists].
  destruct (environ w !! "RECIPIENT") as [recipient|]; [|left; by eexists].
  right. by exists user, password, recipient.
Qed.

(** What [send_email] adds to the events it starts from: nothing, or one
    session. *)
Lemma send_email_shape w msg tr :
  exists r added,
    send_email w msg tr = (r, tr ++ added) /\
    count_events is_http added = 0%nat /\
    (count_events is_connect added <= 1)%nat /\
    (count_events is_sendmail added <= 1)%nat /\
    (r = Ok tt ->
     exists session user recipient,
       added = session ++ [SmtpSendmail user [recipient] msg; SmtpQuit; SmtpClose;
                           Log INFO (Email_sent recipient)]) /\
    (forall exc, r = Raise exc -> forall recipient, Log INFO (Email_sent recipient) ∉ added).
Proof.
  destruct (environ_cases w) as [[key Hkey]|(user & password & recipient & Hu & Hp & Hr)].
  - rewrite (send_email_missing_variable _ _ _ _ Hkey).
    exists (Raise (KeyError key)), []. rewrite app_nil_r.
    repeat split; try done; try (cbn; lia).
    intros exc _ recipient Hin. by apply elem_of_nil in Hin.
  - rewrite (send_email_run _ _ _ _ _ _ Hu Hp Hr).
    destruct (smtp_connect w "smtp.gmail.com" 465) as [[]|e0];
      [destruct (smtp_login w user password) as [[]|e1];
       [destruct (smtp_sendmail w user [recipient] msg) as [[]|e2]|];
       destruct (smtp_quit w) as [[]|e3]|];
      eexists _, _; (split; [reflexivity|]);
      (split; [reflexivity|]); (split; [cbn; lia|]); (split; [cbn; lia|]);
      (split; [intros H; try discriminate H |
               intros exc H; try discriminate H; intros rcpt Hin;
               repeat (apply elem_of_cons in Hin as [Hin|Hin]; [discriminate|]);
               by apply elem_of_nil in Hin]).
    by exists [SmtpConnect "smtp.gmail.com" 465; SmtpLogin user password],
              user, recipient.
Qed.

(** The exit status tells what happened.  Status 0: the run ends with the
    submission of one message, QUIT, the close and the success line.
    Status 1: the run ends with the one error line, after events that hold
    no success line.  There is no third status. *)
Theorem main_exit_status w :
  ((main w).2 = 0 /\
   exists tr user recipient msg,
     (main w).1 = tr ++ [SmtpSendmail user [recipient] msg; SmtpQuit; SmtpClose;
                         Log INFO (Email_sent recipient)]) \/
  ((main w).2 = 1 /\
   exists tr exc,
     (main w).1 = tr ++ [Log ERROR (Error_occurred exc)] /\
     forall recipient, Log INFO (Email_sent recipient) ∉ tr).
Proof.
  unfold main. rewrite pipeline_stages.
  destruct (get_upcoming_ipos w default_url []).1 as [all_ipos|e0].
  2:{ right. split; [done|]. exists [HttpGet default_url], e0. split; [done|].
      intros r Hin. apply elem_of_cons in Hin as [Hin|Hin]; [discriminate|].
      by apply elem_of_nil in Hin. }
  destruct (filter_upcoming w all_ipos 7 None) as [upcoming|e1].
  2:{ right. split; [done|]. eexists _, e1. split; [done|].
      intros r Hin.
      repeat (apply elem_of_cons in Hin as [Hin|Hin]; [discriminate|]).
      by apply elem_of_nil in Hin. }
  destruct (compose_email (after_reading w) upcoming None) as [msg|e2].
  2:{ right. split; [done|]. eexists _, e2. split; [done|].
      intros r Hin.
      repeat (apply elem_of_cons in Hin as [Hin|Hin]; [discriminate|]).
      by apply elem_of_nil in Hin. }
  destruct (send_email_shape w msg
              [HttpGet default_url; Log INFO (Fetched_total (length all_ipos));
               Log INFO (Found_upcoming (length upcoming))])
    as (r & added & -> & _ & _ & _ & Hok & Herr).
  destruct r as [[]|e3].
  - left. split; [done|].
    destruct (Hok eq_refl) as (session & user & recipient & ->).
    eexists _, user, recipient, msg. cbn [fst]. by rewrite app_assoc.
  - right. split; [done|]. eexists _, e3. split; [done|].
    intros r Hin. apply elem_of_app in Hin as [Hin|Hin].
    + repeat (apply elem_of_cons in Hin as [Hin|Hin]; [discriminate|]).
      by apply elem_of_nil in Hin.
    + by apply (Herr e3 eq_refl r).
Qed.

(** A run asks the calendar once, first of all, and tries the mail server at
    most once: there is no second request, connection or submission. *)
Theorem main_single_attempt w :
  (exists rest, (main w).1 = HttpGet default_url :: rest) /\
  count_events is_http (main w).1 = 1%nat /\
  (count_events is_connect (main w).1 <= 1)%nat /\
  (count_events is_sendmail (main w).1 <= 1)%nat.
Proof.
  unfold main. rewrite pipeline_stages.
  destruct (get_upcoming_ipos w default_url []).1 as [all_ipos|e0];
    [|cbn; repeat split; try lia; by eexists].
  destruct (filter_upcoming w all_ipos 7 None) as [upcoming|e1];
    [|cbn; repeat split; try lia; by eexists].
  destruct (compose_email (after_reading w) upcoming None) as [msg|e2];
    [|cbn; repeat split; try lia; by eexists].
  destruct (send_email_shape w msg
              [HttpGet default_url; Log INFO (Fetched_total (length all_ipos));
               Log INFO (Found_upcoming (length upcoming))])
    as (r & added & -> & Hh & Hc & Hs & _).
  destruct r as [[]|e3]; cbn [fst];
    rewrite ?count_events_app; (split; [by eexists|]);
    change (count_events is_http [HttpGet default_url;
              Log INFO (Fetched_total (length all_ipos));
              Log INFO (Found_upcoming (length upcoming))]) with 1%nat;
    change (count_events is_connect [HttpGet default_url;
              Log INFO (Fetched_total (length all_ipos));
              Log INFO (Found_upcoming (length upcoming))]) with 0%nat;
    change (count_events is_sendmail [HttpGet default_url;
              Log INFO (Fetched_total (length all_ipos));
              Log INFO (Found_upcoming (length upcoming))]) with 0%nat;
    cbn; lia.
Qed.

(** When the fetch stage fails the run stops there: after the request come
    the error line and exit status 1, nothing is filtered, composed or
    sent.  That is so when the request itself fails, when the answer has an
    error status (400 to 599), and when the page holds no table body. *)
Theorem main_fetch_failure w :
  (forall exc,
     (get_upcoming_ipos w default_url []).1 = Raise exc ->
     main w = ([HttpGet default_url; Log ERROR (Error_occurred exc)], 1)) /\
  (forall exc,
     requests_get w default_url = Raise exc ->
     (get_upcoming_ipos w default_url []).1 = Raise exc) /\
  (forall response,
     requests_get w default_url = Ok response ->
     400 <= status_code response < 600 ->
     (get_upcoming_ipos w default_url []).1 = Raise HTTPError) /\
  (forall response,
     requests_get w default_url = Ok response ->
     raise_for_status response = Ok tt ->
     Bs4.find_all "tbody" (BeautifulSoup w (text response)) = [] ->
     (get_upcoming_ipos w default_url []).1 = Raise ValueError).
Proof.
  split; [|split; [|split]].
  - intros exc H. unfold main. rewrite pipeline_stages, H. done.
  - intros exc H. unfold get_upcoming_ipos, bindM, emit, lift. by rewrite H.
  - intros response H Hs. unfold get_upcoming_ipos, bindM, emit, lift.
    rewrite H. unfold raise_for_status.
    destruct (400 <=? status_code response) eqn:E1; [|lia].
    destruct (status_code response <? 600) eqn:E2; [done | lia].
  - intros response H Hs Hb.
    rewrite (get_upcoming_ipos_fetched _ _ _ _ H Hs), scrape_spec. by rewrite Hb.
Qed.

Lemma main_fetch_failure_witness :
  main (world_with full_env empty_page)
  = ([HttpGet default_url; Log ERROR (Error_occurred ValueError)], 1).
Proof.
  destruct (main_fetch_failure (world_with full_env empty_page))
    as (Hmain & _ & _ & Hbody).
  apply Hmain.
  apply (Hbody (mk_Response 200 "<html>...</html>")); reflexivity.
Defined.



(** ** More on the fetcher *)

Lemma get_upcoming_ipos_inv w url tr ipos tr' :
  get_upcoming_ipos w url tr = (Ok ipos, tr') ->
  exists response,
    requests_get w url = Ok response /\
    ipos = records_of_page (BeautifulSoup w (text response)) /\
    tr' = tr ++ [HttpGet url].
Proof.
  unfold get_upcoming_ipos, bindM, emit, lift.
  destruct (requests_get w url) as [response|e]; [|done].
  destruct (raise_for_status response) as [[]|e]; [|done].
  rewrite scrape_spec.
  destruct (Bs4.find_all "tbody" _); [done|].
  intros [= <- <-]. by exists response.
Qed.

(** Induction on a tree, with the property at hand for every child. *)
Lemma node_ind' (P : Bs4.node -> Prop) :
  (forall name children, Forall P children -> P (Bs4.Tag name children)) ->
  (forall s, P (Bs4.NavigableString s)) ->
  (forall s, P (Bs4.Comment s)) ->
  forall n, P n.
Proof.
  intros HT HS HC. fix IH 1. intros [name children|s|s]; [|apply HS|apply HC].
  apply HT. induction children as [|c children IHc]; constructor; [apply IH | apply IHc].
Qed.

Lemma descendants_Tag name children :
  Bs4.descendants (Bs4.Tag name children)
  = flat_map (fun c => c :: Bs4.descendants c) children.
Proof.
  induction children as [|c children IH]; [done|].
  simpl in *. by rewrite IH.
Qed.

(** Document order: the nodes below a descendant follow it directly. *)
Lemma descendants_split n c :
  In c (Bs4.descendants n) ->
  exists pre post,
    Bs4.descendants n = pre ++ c :: Bs4.descendants c ++ post.
Proof.
  revert c. induction n as [name children IH|s|s] using node_ind';
    intros c Hin; [|done|done].
  rewrite descendants_Tag in *.
  apply in_flat_map in Hin as (c0 & Hc0 & Hin).
  destruct (in_split _ _ Hc0) as (l1 & l2 & ->).
  rewrite flat_map_app. cbn [flat_map].
  destruct Hin as [->|Hin].
  - by exists (flat_map (fun c => c :: Bs4.descendants c) l1),
              (flat_map (fun c => c :: Bs4.descendants c) l2).
  - rewrite Forall_app, Forall_cons in IH. destruct IH as (_ & IH0 & _).
    destruct (IH0 _ Hin) as (pre & post & ->).
    exists (flat_map (fun c => c :: Bs4.descendants c) l1 ++ c0 :: pre),
           (post ++ flat_map (fun c => c :: Bs4.descendants c) l2).
    rewrite <- !app_assoc. cbn [app]. rewrite <- !app_assoc. cbn [app].
    by rewrite <- !app_assoc.
Qed.

Lemma find_all_split name n c :
  In c (Bs4.find_all name n) ->
  exists pre post,
    Bs4.find_all name n = pre ++ c :: Bs4.find_all name c ++ post.
Proof.
  unfold Bs4.find_all. intros Hin. apply filter_In in Hin as [Hin Htag].
  destruct (descendants_split _ _ Hin) as (pre & post & ->).
  rewrite List.filter_app. cbn [List.filter]. rewrite Htag, List.filter_app.
  by eexists _, _.
Qed.

Lemma find_all_below name name' n c :
  In c (Bs4.find_all name' n) ->
  exists pre post,
    Bs4.find_all name n = pre ++ Bs4.find_all name c ++ post.
Proof.
  unfold Bs4.find_all. intros Hin. apply filter_In in Hin as [Hin _].
  destruct (descendants_split _ _ Hin) as (pre & post & ->).
  rewrite List.filter_app. cbn [List.filter]. rewrite List.filter_app.
  destruct (Bs4.is_tag name c).
  - exists (List.filter (Bs4.is_tag name) pre ++ [c]), (List.filter (Bs4.is_tag name) post).
    by rewrite <- app_assoc.
  - by eexists _, _.
Qed.

(** Table bodies are searched at any depth and each one is scanned for rows
    at any depth: a body nested in another is scanned on its own after its
    rows were already read as rows of the outer body, so the records of its
    rows are returned twice. *)
Theorem nested_tbody_rows_repeat soup outer inner :
  outer ∈ Bs4.find_all "tbody" soup ->
  inner ∈ Bs4.find_all "tbody" outer ->
  (exists before between after,
     records_of_page soup
     = before ++ records_of_body outer ++ between
              ++ records_of_body inner ++ after) /\
  (exists before after,
     records_of_body outer = before ++ records_of_body inner ++ after).
Proof.
  rewrite !list_elem_of_In. intros Houter Hinner. split.
  - destruct (find_all_split _ _ _ Houter) as (pre & post & Hsoup).
    destruct (in_split _ _ Hinner) as (l1 & l2 & Hout).
    exists (flat_map records_of_body pre), (flat_map records_of_body l1),
           (flat_map records_of_body l2 ++ flat_map records_of_body post).
    change (records_of_page soup)
      with (flat_map records_of_body (Bs4.find_all "tbody" soup)).
    rewrite Hsoup, Hout.
    rewrite flat_map_app. cbn [flat_map].
    rewrite flat_map_app, flat_map_app. cbn [flat_map].
    by rewrite <- !app_assoc.
  - destruct (find_all_below "tr" _ _ _ Hinner) as (pre & post & Hrows).
    exists (records_of_rows pre), (records_of_rows post).
    unfold records_of_body, records_of_rows. rewrite Hrows.
    by rewrite flat_map_app, flat_map_app.
Qed.

Lemma nested_tbody_rows_repeat_witness :
  records_of_body nested_inner = [sample_record "Aug 4, 2025" "ABC"] /\
  exists before between after,
    records_of_page nested_page
    = before ++ records_of_body nested_outer ++ between
             ++ records_of_body nested_inner ++ after.
Proof.
  split; [reflexivity|].
  destruct (nested_tbody_rows_repeat nested_page nested_outer nested_inner) as [H _].
  - apply list_elem_of_here.
  - vm_compute. apply list_elem_of_here.
  - exact H.
Defined.

(** ** The cell texts are trimmed *)

(** The lead bytes of the sequences of two, three and four bytes are
    apart. *)
Lemma valid3_lead b0 b1 b2 x :
  Str.valid3 b0 b1 b2 = true -> Str.valid2 b0 x = false.
Proof.
  unfold Str.valid3, Str.valid2, Str.between. intros H.
  destruct (194 <=? Str.byte b0) eqn:E1; [|done].
  destruct (Str.byte b0 <=? 223) eqn:E2; [|done].
  apply Z.leb_le in E2.
  rewrite (proj2 (Z.leb_gt 224 (Str.byte b0))) in H by lia.
  rewrite (proj2 (Z.leb_gt 225 (Str.byte b0))) in H by lia.
  rewrite (proj2 (Z.leb_gt 237 (Str.byte b0))) in H by lia.
  rewrite (proj2 (Z.leb_gt 238 (Str.byte b0))) in H by lia.
  done.
Qed.

Lemma valid4_lead b0 b1 b2 b3 x y :
  Str.valid4 b0 b1 b2 b3 = true ->
  Str.valid2 b0 x = false /\ Str.valid3 b0 x y = false.
Proof.
  unfold Str.valid4, Str.valid3, Str.valid2, Str.between. intros H.
  destruct (Str.byte b0 <=? 239) eqn:E.
  - apply Z.leb_le in E.
    rewrite (proj2 (Z.leb_gt 240 (Str.byte b0))) in H by lia.
    rewrite (proj2 (Z.leb_gt 241 (Str.byte b0))) in H by lia.
    rewrite (proj2 (Z.leb_gt 244 (Str.byte b0))) in H by lia.
    done.
  - apply Z.leb_gt in E.
    rewrite (proj2 (Z.leb_gt (Str.byte b0) 223)) by lia.
    rewrite (proj2 (Z.leb_gt (Str.byte b0) 224)) by lia.
    rewrite (proj2 (Z.leb_gt (Str.byte b0) 236)) by lia.
    rewrite (proj2 (Z.leb_gt (Str.byte b0) 237)) by lia.
    by rewrite !andb_false_r.
Qed.

(** The encoding of a character is read as that character, whatever
    follows. *)
Lemma chars_char_ok ch rest :
  Str.char_ok ch = true -> Str.chars (ch +:+ rest) = ch :: Str.chars rest.
Proof.
  destruct ch as [|b0 [|b1 [|b2 [|b3 [|b4 ch]]]]]; try done;
    cbn [Str.char_ok String.append]; intros H.
  - by apply chars_ascii.
  - by rewrite chars_unfold, H.
  - by rewrite chars_unfold, (valid3_lead _ _ _ b1 H), H.
  - destruct (valid4_lead _ _ _ _ b1 b2 H) as [H2 H3].
    by rewrite chars_unfold, H2, H3, H.
Qed.

Lemma chars_concat_ok l rest :
  forallb Str.char_ok l = true ->
  Str.chars (Str.concat_all l +:+ rest) = l ++ Str.chars rest.
Proof.
  induction l as [|ch l IH]; [done|]. cbn [forallb Str.concat_all app].
  intros H. apply andb_true_iff in H as [Hc Hl].
  by rewrite append_assoc, (chars_char_ok _ _ Hc), (IH Hl).
Qed.

Lemma chars_concat_all l :
  forallb Str.char_ok l = true -> Str.chars (Str.concat_all l) = l.
Proof.
  intros H. rewrite <- (append_empty_r (Str.concat_all l)).
  rewrite (chars_concat_ok _ _ H). apply app_nil_r.
Qed.

Lemma lstrip_starts_ok l : starts_ok (Str.lstrip l).
Proof.
  induction l as [|ch l IH]; [done|]. cbn [Str.lstrip].
  by destruct (Str.isspace ch) eqn:E.
Qed.

Lemma lstrip_id l : starts_ok l -> Str.lstrip l = l.
Proof. destruct l as [|ch l]; [done|]. cbn [starts_ok Str.lstrip]. by intros ->. Qed.

Lemma rstrip_cons ch l :
  Str.rstrip (ch :: l)
  = match Str.rstrip l with
    | [] => if Str.isspace ch then [] else [ch]
    | t => ch :: t
    end.
Proof. reflexivity. Qed.

Lemma rstrip_starts_ok l : starts_ok l -> starts_ok (Str.rstrip l).
Proof.
  destruct l as [|ch l]; [done|]. cbn [starts_ok]. intros H.
  rewrite rstrip_cons. destruct (Str.rstrip l); [by rewrite H | done].
Qed.

Lemma rstrip_idem l : Str.rstrip (Str.rstrip l) = Str.rstrip l.
Proof.
  induction l as [|ch l IH]; [done|]. rewrite rstrip_cons.
  destruct (Str.rstrip l) as [|ch' t] eqn:E.
  - destruct (Str.isspace ch) eqn:Ec; [done|]. rewrite rstrip_cons. cbn [Str.rstrip].
    by rewrite Ec.
  - by rewrite rstrip_cons, IH.
Qed.

Lemma lstrip_ok l :
  forallb Str.char_ok l = true -> forallb Str.char_ok (Str.lstrip l) = true.
Proof.
  induction l as [|ch l IH]; [done|]. intros H. cbn [Str.lstrip].
  destruct (Str.isspace ch); [|done].
  cbn [forallb] in H. apply andb_true_iff in H as [_ H]. by apply IH.
Qed.

Lemma rstrip_ok l :
  forallb Str.char_ok l = true -> forallb Str.char_ok (Str.rstrip l) = true.
Proof.
  induction l as [|ch l IH]; [done|]. cbn [forallb]. intros H.
  apply andb_true_iff in H as [Hc Hl]. rewrite rstrip_cons.
  specialize (IH Hl). destruct (Str.rstrip l) as [|ch' t].
  - destruct (Str.isspace ch); [done|]. cbn [forallb]. by rewrite Hc.
  - cbn [forallb] in *. by rewrite Hc, IH.
Qed.

Lemma rstrip_app_fixed a b :
  b <> [] -> Str.rstrip b = b -> Str.rstrip (a ++ b) = a ++ b.
Proof.
  intros Hne Hb. induction a as [|ch a IH]; [done|].
  cbn [app]. rewrite rstrip_cons, IH.
  destruct (a ++ b) eqn:E; [|done].
  by apply app_eq_nil in E as [_ ->].
Qed.

(** What [strip] keeps of a string. *)
Lemma tidy_strip s :
  Str.well_formed s = true -> tidy (Str.rstrip (Str.lstrip (Str.chars s))).
Proof.
  intros H. split; [|split].
  - by apply rstrip_ok, lstrip_ok.
  - apply rstrip_starts_ok, lstrip_starts_ok.
  - apply rstrip_idem.
Qed.

Lemma tidy_app a b : tidy a -> tidy b -> tidy (a ++ b).
Proof.
  intros (Ha & Hsa & Hra) (Hb & Hsb & Hrb).
  destruct b as [|ch b]; [by rewrite app_nil_r|].
  split; [|split].
  - by rewrite forallb_app, Ha, Hb.
  - by destruct a.
  - by apply rstrip_app_fixed.
Qed.

Lemma tidy_trimmed l : tidy l -> trimmed (Str.concat_all l).
Proof.
  intros (Hok & Hs & Hr). unfold trimmed, Str.strip.
  by rewrite (chars_concat_all _ Hok), (lstrip_id _ Hs), Hr.
Qed.

Lemma concat_all_app a b :
  Str.concat_all (a ++ b) = Str.concat_all a +:+ Str.concat_all b.
Proof.
  induction a as [|x a IH]; [done|]. cbn [app Str.concat_all].
  by rewrite IH, append_assoc.
Qed.

(** The text of a node is the run of the characters its text nodes keep. *)
Lemma get_text_stripped_chars n :
  Bs4.get_text n = Str.concat_all (flat_map stripped_chars (Bs4.descendants n)).
Proof.
  unfold Bs4.get_text, Bs4._all_strings.
  induction (Bs4.descendants n) as [|d l IH]; [done|].
  cbn [flat_map]. rewrite !concat_all_app, IH. f_equal.
  destruct d as [name cs|s|s]; try done.
  cbn [stripped_chars]. fold (Str.strip s).
  destruct (Str.strip s); [done|]. cbn [Str.concat_all]. apply append_empty_r.
Qed.

(** The text of a cell needs no further trimming. *)
Lemma get_text_trimmed n :
  texts_well_formed n = true -> trimmed (Bs4.get_text n).
Proof.
  intros H. rewrite get_text_stripped_chars. apply tidy_trimmed.
  unfold texts_well_formed in H.
  induction (Bs4.descendants n) as [|d l IH]; [done|].
  cbn [forallb] in H. apply andb_true_iff in H as [Hd Hl].
  cbn [flat_map]. apply tidy_app; [|by apply IH].
  destruct d as [name cs|s|s]; try done. by apply tidy_strip.
Qed.

Lemma texts_well_formed_below n c :
  In c (Bs4.descendants n) ->
  texts_well_formed n = true -> texts_well_formed c = true.
Proof.
  intros Hin H. destruct (descendants_split _ _ Hin) as (pre & post & E).
  unfold texts_well_formed in *. rewrite E in H.
  rewrite forallb_app in H. apply andb_true_iff in H as [_ H].
  cbn [forallb] in H. apply andb_true_iff in H as [_ H].
  rewrite forallb_app in H. by apply andb_true_iff in H as [H _].
Qed.

Lemma texts_well_formed_find_all name n c :
  In c (Bs4.find_all name n) ->
  texts_well_formed n = true -> texts_well_formed c = true.
Proof.
  unfold Bs4.find_all. intros Hin. apply filter_In in Hin as [Hin _].
  by apply texts_well_formed_below.
Qed.

(** Every field of every record [get_upcoming_ipos] returns is already
    stripped: when the text nodes of the page hold Python strings, a field
    has no whitespace character of Unicode at either end, so stripping it
    again gives it back. *)
Theorem get_upcoming_ipos_fields_trimmed w url tr ipos tr' response :
  requests_get w url = Ok response ->
  texts_well_formed (BeautifulSoup w (text response)) = true ->
  get_upcoming_ipos w url tr = (Ok ipos, tr') ->
  forall ipo field,
    ipo ∈ ipos -> field ∈ all_fields ipo -> Str.strip field = field.
Proof.
  intros Hget Hwf H ipo field Hipo Hfield.
  destruct (get_upcoming_ipos_inv _ _ _ _ _ H) as (response' & Hget' & -> & _).
  rewrite Hget in Hget'. injection Hget' as <-.
  apply elem_of_records_of_page in Hipo as (tbody & row & Hb & Hrow & Hrec).
  apply list_elem_of_In in Hb, Hrow.
  pose proof (texts_well_formed_find_all _ _ _ Hrow
                (texts_well_formed_find_all _ _ _ Hb Hwf)) as Hwr.
  assert (Hcell : forall c, In c (Bs4.find_all "td" row) -> trimmed (Bs4.get_text c)).
  { intros c Hc. apply get_text_trimmed.
    by apply (texts_well_formed_find_all _ _ _ Hc). }
  destruct (Bs4.find_all "td" row)
    as [|c0 [|c1 [|c2 [|c3 [|c4 [|c5 [|c6 [|c7 rest]]]]]]]]; try discriminate.
  simpl in Hrec. injection Hrec as <-.
  unfold all_fields, rendered_fields in Hfield. cbn in Hfield.
  repeat (apply elem_of_cons in Hfield as [->|Hfield];
          [apply Hcell; cbn; tauto|]).
  apply elem_of_cons in Hfield as [->|Hfield]; [|by apply elem_of_nil in Hfield].
  destruct rest; [reflexivity | apply Hcell; cbn; tauto].
Qed.

Lemma get_upcoming_ipos_fields_trimmed_witness :
  get_upcoming_ipos (world_with full_env unicode_page) default_url []
  = (Ok [unicode_record], [HttpGet default_url]) /\
  Str.strip (Ipo.date unicode_record) = Ipo.date unicode_record /\
  Str.strip "$1.2B" = "$1.2B"%string.
Proof.
  split; [reflexivity|].
  split;
    apply (get_upcoming_ipos_fields_trimmed (world_with full_env unicode_page)
             default_url [] [unicode_record] [HttpGet default_url]
             (mk_Response 200 "<html>...</html>") eq_refl eq_refl eq_refl
             unicode_record);
    try apply list_elem_of_here.
  do 7 apply list_elem_of_further. apply list_elem_of_here.
Defined.

(** ** The date parser *)

Lemma check_date_fields_inv y m d :
  Datetime._check_date_fields y m d = Ok tt ->
  1 <= y <= 9999 /\ 1 <= m <= 12 /\ 1 <= d <= Datetime._days_in_month y m.
Proof.
  unfold Datetime._check_date_fields, Datetime.MINYEAR, Datetime.MAXYEAR.
  destruct ((1 <=? y) && (y <=? 9999)) eqn:Ey; [|done].
  destruct ((1 <=? m) && (m <=? 12)) eqn:Em; [|done].
  destruct ((1 <=? d) && (d <=? Datetime._days_in_month y m)) eqn:Ed; [|done].
  intros _.
  apply andb_true_iff in Ey as [? ?]. apply andb_true_iff in Em as [? ?].
  apply andb_true_iff in Ed as [? ?]. lia.
Qed.

(** What [strptime] returns is a date of the calendar, at midnight. *)
Lemma strptime_valid s dt :
  Datetime.strptime s = Ok dt ->
  Datetime._check_date_fields (Datetime.year dt) (Datetime.month dt) (Datetime.day dt)
  = Ok tt /\
  Datetime.hour dt = 0 /\ Datetime.minute dt = 0 /\ Datetime.second dt = 0.
Proof.
  unfold Datetime.strptime.
  destruct (Datetime.format_regex_match s) as [f|]; [|done].
  destruct (Datetime.unconverted f); [|done].
  destruct (Datetime.index_from 1 _ Datetime.a_month) as [m|]; [|done].
  destruct (Datetime._check_date_fields _ m _) as [[]|e] eqn:E; [|done].
  cbn [bind]. intros [= <-]. by cbn.
Qed.

Ltac eval_month_tables :=
  repeat match goal with
  | |- context [nth ?n ?l ?d] =>
      let v := eval vm_compute in (nth n l d) in change (nth n l d) with v
  | H : context [nth ?n ?l ?d] |- _ =>
      let v := eval vm_compute in (nth n l d) in change (nth n l d) with v in H
  end;
  cbn in *.

Lemma days_in_year_bound y m d :
  1 <= m <= 12 -> 1 <= d <= Datetime._days_in_month y m ->
  1 <= Datetime._days_before_month y m + d
    <= 365 + (if Datetime._is_leap y then 1 else 0).
Proof.
  intros Hm Hd.
  assert (Hc : m = 1 \/ m = 2 \/ m = 3 \/ m = 4 \/ m = 5 \/ m = 6 \/ m = 7 \/
               m = 8 \/ m = 9 \/ m = 10 \/ m = 11 \/ m = 12) by lia.
  unfold Datetime._days_before_month, Datetime._days_in_month in *.
  destruct (Datetime._is_leap y);
    repeat (destruct Hc as [->|Hc]; [eval_month_tables; lia|]);
    subst m; eval_month_tables; lia.
Qed.

Lemma days_before_year_bound y :
  1 <= y <= 9998 -> 0 <= Datetime._days_before_year y <= 3651693.
Proof.
  intros H. unfold Datetime._days_before_year. cbv zeta.
  pose proof (Z.div_mod (y - 1) 4 ltac:(lia)).
  pose proof (Z.mod_pos_bound (y - 1) 4 ltac:(lia)).
  pose proof (Z.div_mod (y - 1) 100 ltac:(lia)).
  pose proof (Z.mod_pos_bound (y - 1) 100 ltac:(lia)).
  pose proof (Z.div_mod (y - 1) 400 ltac:(lia)).
  pose proof (Z.mod_pos_bound (y - 1) 400 ltac:(lia)).
  lia.
Qed.

Lemma ymd2ord_range y m d :
  Datetime._check_date_fields y m d = Ok tt ->
  1 <= Datetime._ymd2ord y m d <= Datetime._MAXORDINAL.
Proof.
  intros H. apply check_date_fields_inv in H as (Hy & Hm & Hd).
  pose proof (days_in_year_bound y m d Hm Hd) as Hin.
  unfold Datetime._ymd2ord, Datetime._MAXORDINAL.
  destruct (Z.eq_dec y 9999) as [->|Hne].
  - change (Datetime._is_leap 9999) with false in Hin.
    change (Datetime._days_before_year 9999) with 3651694. lia.
  - pose proof (days_before_year_bound y ltac:(lia)).
    destruct (Datetime._is_leap y); lia.
Qed.

(** [parse_date] returns only dates of the calendar between 0001-01-01
    and 9999-12-31: in a zone whose [localize] keeps the fields, a parsed
    string gives the ordinal of a valid year, month and day, so the
    comparisons of the filter are between representable dates. *)
Theorem parse_date_valid date_str name d :
  parse_date date_str (Pytz.static_tz name) = Ok d ->
  exists year month day,
    1 <= year <= 9999 /\ 1 <= month <= 12 /\
    1 <= day <= Datetime._days_in_month year month /\
    d = Datetime._ymd2ord year month day /\
    1 <= d <= Datetime._MAXORDINAL.
Proof.
  unfold parse_date.
  destruct (Datetime.strptime date_str) as [dt|e] eqn:E; [|done].
  cbn. intros [= <-].
  destruct (strptime_valid _ _ E) as (Hv & _).
  exists (Datetime.year dt), (Datetime.month dt), (Datetime.day dt).
  pose proof (check_date_fields_inv _ _ _ Hv) as (Hy & Hm & Hd).
  repeat split; try lia; apply (ymd2ord_range _ _ _ Hv).
Qed.

Lemma parse_date_valid_witness :
  exists year month day,
    1 <= year <= 9999 /\ 1 <= month <= 12 /\
    1 <= day <= Datetime._days_in_month year month /\
    739467 = Datetime._ymd2ord year month day /\
    1 <= 739467 <= Datetime._MAXORDINAL.
Proof.
  apply (parse_date_valid "Aug 4, 2025" "UTC" 739467). reflexivity.
Defined.

Lemma digit_char_in n :
  In (Str.digit_char n) ["0"; "1"; "2"; "3"; "4"; "5"; "6"; "7"; "8"; "9"]%char.
Proof.
  unfold Str.digit_char.
  assert (H : 0 <= n mod 10 < 10) by (apply Z.mod_pos_bound; lia).
  assert (Hc : n mod 10 = 0 \/ n mod 10 = 1 \/ n mod 10 = 2 \/ n mod 10 = 3 \/
               n mod 10 = 4 \/ n mod 10 = 5 \/ n mod 10 = 6 \/ n mod 10 = 7 \/
               n mod 10 = 8 \/ n mod 10 = 9) by lia.
  repeat (destruct Hc as [->|Hc]; [vm_compute; tauto|]).
  rewrite Hc. vm_compute. tauto.
Qed.

Lemma digit_char_isdecimal n :
  Str.isdecimal (String (Str.digit_char n) EmptyString) = true.
Proof.
  pose proof (digit_char_in n) as H. simpl in H.
  repeat (destruct H as [<-|H]; [reflexivity|]). done.
Qed.

Lemma digit_char_isspace n :
  Str.isspace (String (Str.digit_char n) EmptyString) = false.
Proof.
  pose proof (digit_char_in n) as H. simpl in H.
  repeat (destruct H as [<-|H]; [reflexivity|]). done.
Qed.

Lemma digit_char_ascii n : (Str.byte (Str.digit_char n) <? 128) = true.
Proof.
  pose proof (digit_char_in n) as H. simpl in H.
  repeat (destruct H as [<-|H]; [reflexivity|]). done.
Qed.

Lemma digit_char_decimal n :
  Str.decimal (String (Str.digit_char n) EmptyString) = n mod 10.
Proof.
  unfold Str.digit_char.
  assert (H : 0 <= n mod 10 < 10) by (apply Z.mod_pos_bound; lia).
  assert (Hc : n mod 10 = 0 \/ n mod 10 = 1 \/ n mod 10 = 2 \/ n mod 10 = 3 \/
               n mod 10 = 4 \/ n mod 10 = 5 \/ n mod 10 = 6 \/ n mod 10 = 7 \/
               n mod 10 = 8 \/ n mod 10 = 9) by lia.
  repeat (destruct Hc as [->|Hc]; [reflexivity|]).
  by rewrite Hc.
Qed.

Lemma chars_ascii_app a b :
  ascii_only a = true -> Str.chars (a +:+ b) = singles a ++ Str.chars b.
Proof.
  induction a as [|c a IH]; [done|]. cbn [ascii_only]. intros H.
  apply andb_true_iff in H as [Hc Ha].
  cbn [String.append singles app]. by rewrite (chars_ascii _ _ Hc), IH.
Qed.

Lemma chars_ascii_only a : ascii_only a = true -> Str.chars a = singles a.
Proof.
  intros H. rewrite <- (append_empty_r a) at 1.
  rewrite (chars_ascii_app _ _ H). apply app_nil_r.
Qed.

Lemma ascii_only_pad4 y : ascii_only (Datetime.pad4 y) = true.
Proof. unfold Datetime.pad4. cbn [ascii_only]. by rewrite !digit_char_ascii. Qed.

Lemma re_Y_pad4 y :
  Datetime.re_Y (singles (Datetime.pad4 y)) = Some (Datetime.pad4 y, []).
Proof.
  unfold Datetime.re_Y, Datetime.pad4. cbn [singles].
  by rewrite !digit_char_isdecimal.
Qed.

Lemma int_pad4 y : 0 <= y <= 9999 -> Datetime.int (Datetime.pad4 y) = y.
Proof.
  intros H. unfold Datetime.int.
  rewrite (chars_ascii_only _ (ascii_only_pad4 y)).
  unfold Datetime.pad4. cbn [singles Str.lstrip].
  rewrite digit_char_isspace. cbn [Str.rstrip]. rewrite !digit_char_isspace.
  cbn [Datetime.int_digits].
  rewrite !digit_char_decimal.
  pose proof (Z.div_mod y 10 ltac:(lia)).
  pose proof (Z.mod_pos_bound y 10 ltac:(lia)).
  pose proof (Z.div_mod (y / 10) 10 ltac:(lia)).
  pose proof (Z.mod_pos_bound (y / 10) 10 ltac:(lia)).
  pose proof (Z.div_mod (y / 100) 10 ltac:(lia)).
  pose proof (Z.mod_pos_bound (y / 100) 10 ltac:(lia)).
  pose proof (Z.div_mod (y / 1000) 10 ltac:(lia)).
  pose proof (Z.mod_pos_bound (y / 1000) 10 ltac:(lia)).
  assert (y / 100 = y / 10 / 10) by (rewrite Z.div_div; [done | lia | lia]).
  assert (y / 1000 = y / 100 / 10) by (rewrite Z.div_div; [done | lia | lia]).
  assert (y / 1000 / 10 = 0) by (rewrite Z.div_div by lia; apply Z.div_small; lia).
  lia.
Qed.

(** The expression matches the comma, the space and the year. *)
Lemma after_day_year b d y :
  Datetime.re_after_day b d
    (String "," EmptyString :: String " " EmptyString :: singles (Datetime.pad4 y))
  = Some (Datetime.mk_found b d (Datetime.pad4 y) []).
Proof.
  unfold Datetime.re_after_day.
  change (Datetime.is_char "," (String "," EmptyString)) with true. cbv iota.
  cbn [Datetime.re_spaces].
  change (Str.isspace (String " " EmptyString)) with true. cbv iota.
  assert (Hy : forall k : list string -> option Datetime.found,
            Datetime.re_spaces (singles (Datetime.pad4 y)) k = None).
  { intros k. unfold Datetime.pad4. cbn [singles Datetime.re_spaces].
    by rewrite digit_char_isspace. }
  by rewrite Hy, re_Y_pad4.
Qed.

Lemma day_cases d :
  1 <= d <= 31 ->
  d = 1 \/ d = 2 \/ d = 3 \/ d = 4 \/ d = 5 \/ d = 6 \/ d = 7 \/ d = 8 \/
  d = 9 \/ d = 10 \/ d = 11 \/ d = 12 \/ d = 13 \/ d = 14 \/ d = 15 \/ d = 16 \/
  d = 17 \/ d = 18 \/ d = 19 \/ d = 20 \/ d = 21 \/ d = 22 \/ d = 23 \/ d = 24 \/
  d = 25 \/ d = 26 \/ d = 27 \/ d = 28 \/ d = 29 \/ d = 30 \/ d = 31.
Proof. lia. Qed.

Lemma month_cases m :
  1 <= m <= 12 ->
  m = 1 \/ m = 2 \/ m = 3 \/ m = 4 \/ m = 5 \/ m = 6 \/ m = 7 \/ m = 8 \/
  m = 9 \/ m = 10 \/ m = 11 \/ m = 12.
Proof. lia. Qed.

(** The space and the day: the greedy [\s+] takes the one space, and the
    first alternative of [%d] that fits is the one the rest can follow. *)
Lemma day_match padded d (k : string -> list string -> option Datetime.found) rest r :
  1 <= d <= 31 ->
  k (day_text padded d) (String "," EmptyString :: rest) = Some r ->
  Datetime.re_spaces
    (String " " EmptyString :: singles (day_text padded d)
     ++ String "," EmptyString :: rest)
    (fun s2 => Datetime.re_alt Datetime.re_d_alternatives s2 k)
  = Some r.
Proof.
  intros Hd H. apply day_cases in Hd.
  destruct padded;
    repeat (destruct Hd as [->|Hd];
            [vm_compute in H; vm_compute; rewrite H; reflexivity|]);
    subst d; vm_compute in H; vm_compute; rewrite H; reflexivity.
Qed.

Lemma int_day_text padded d : 1 <= d <= 31 -> Datetime.int (day_text padded d) = d.
Proof.
  intros Hd. apply day_cases in Hd.
  destruct padded;
    repeat (destruct Hd as [->|Hd]; [reflexivity|]); subst d; reflexivity.
Qed.

Lemma ascii_only_day_text padded d : ascii_only (day_text padded d) = true.
Proof.
  unfold day_text, Datetime.pad2.
  destruct (padded || (10 <=? d)); cbn [ascii_only]; by rewrite !digit_char_ascii.
Qed.

Lemma month_match m rest :
  1 <= m <= 12 ->
  ascii_only (month_abbr m) = true /\
  Datetime.re_b (singles (month_abbr m) ++ rest) = Some (month_abbr m, rest) /\
  Datetime.index_from 1 (Datetime.lower_string (month_abbr m)) Datetime.a_month
  = Some m.
Proof.
  intros Hm. apply month_cases in Hm.
  repeat (destruct Hm as [->|Hm]; [repeat split; reflexivity|]).
  subst m. repeat split; reflexivity.
Qed.

(** The characters of a date of the calendar. *)
Lemma chars_calendar_text padded y m d :
  1 <= m <= 12 ->
  Str.chars (calendar_text padded y m d)
  = singles (month_abbr m)
    ++ String " " EmptyString :: singles (day_text padded d)
    ++ String "," EmptyString :: String " " EmptyString :: singles (Datetime.pad4 y).
Proof.
  intros Hm. destruct (month_match m [] Hm) as (Ha & _ & _).
  unfold calendar_text.
  rewrite (chars_ascii_app _ _ Ha).
  change (" " +:+ day_text padded d +:+ ", " +:+ Datetime.pad4 y)
    with (String " " (day_text padded d +:+ String "," (String " " (Datetime.pad4 y)))).
  rewrite (chars_ascii " " _ eq_refl).
  rewrite (chars_ascii_app _ _ (ascii_only_day_text padded d)).
  rewrite (chars_ascii "," _ eq_refl), (chars_ascii " " _ eq_refl).
  by rewrite (chars_ascii_only _ (ascii_only_pad4 y)).
Qed.

Lemma days_in_month_le_31 y m : 1 <= m <= 12 -> Datetime._days_in_month y m <= 31.
Proof.
  intros Hm. apply month_cases in Hm. unfold Datetime._days_in_month.
  destruct (Datetime._is_leap y);
    repeat (destruct Hm as [->|Hm]; [eval_month_tables; lia|]);
    subst m; eval_month_tables; lia.
Qed.

(** [strptime] reads the calendar's way of writing a date back. *)
Lemma strptime_calendar_text padded y m d :
  Datetime._check_date_fields y m d = Ok tt ->
  Datetime.strptime (calendar_text padded y m d)
  = Ok (Datetime.mk_datetime y m d 0 0 0).
Proof.
  intros Hv. pose proof (check_date_fields_inv _ _ _ Hv) as (Hy & Hm & Hd).
  pose proof (days_in_month_le_31 y m Hm) as H31.
  assert (Hd31 : 1 <= d <= 31) by lia.
  unfold Datetime.strptime, Datetime.format_regex_match.
  rewrite (chars_calendar_text padded y m d Hm).
  destruct (month_match m
              (String " " EmptyString :: singles (day_text padded d)
               ++ String "," EmptyString :: String " " EmptyString
                  :: singles (Datetime.pad4 y)) Hm)
    as (_ & Hb & Hidx).
  rewrite Hb.
  rewrite (day_match padded d (Datetime.re_after_day (month_abbr m)) _ _ Hd31
             (after_day_year (month_abbr m) (day_text padded d) y)).
  cbn [Datetime.unconverted Datetime.group_Y Datetime.group_b Datetime.group_d].
  rewrite Hidx, (int_pad4 y ltac:(lia)), (int_day_text padded d Hd31), Hv.
  reflexivity.
Qed.

(** A date of the calendar written the way the page writes it, "Aug 4,
    2025" or "Aug 04, 2025", is read back by [parse_date] as that date:
    the result is the date [localize] gives for that day at midnight, which
    in a zone that keeps the fields is the ordinal of the year, month and
    day. *)
Theorem parse_date_calendar_text padded y m d tz :
  Datetime._check_date_fields y m d = Ok tt ->
  parse_date (calendar_text padded y m d) tz
  = (let* localized := Pytz.localize tz (Datetime.mk_datetime y m d 0 0 0) in
     Ok (Datetime.date_of localized)) /\
  forall name,
    parse_date (calendar_text padded y m d) (Pytz.static_tz name)
    = Ok (Datetime._ymd2ord y m d).
Proof.
  intros Hv. unfold parse_date.
  rewrite (strptime_calendar_text padded y m d Hv). split; [reflexivity|].
  intros name. reflexivity.
Qed.

Lemma parse_date_calendar_text_witness :
  calendar_text false 2024 2 29 = "Feb 29, 2024"%string /\
  calendar_text true 2025 8 4 = "Aug 04, 2025"%string /\
  parse_date "Feb 29, 2024" (Pytz.static_tz "UTC") = Ok (Datetime._ymd2ord 2024 2 29).
Proof.
  split; [reflexivity|]. split; [reflexivity|].
  destruct (parse_date_calendar_text false 2024 2 29 (Pytz.static_tz "UTC") eq_refl)
    as [_ H].
  apply (H "UTC").
Defined.

(** ** The table of the HTML body *)













(** ** From the text of a date to the filter *)

(** A record whose date is a date of the calendar, written the way the page
    writes it, is kept by the filter exactly when that date lies between
    today and the end of the window (in a zone whose [localize] keeps the
    fields). *)
Theorem filter_upcoming_calendar_text w ipos days_ahead name ipo padded y m d :
  window_representable
    (Datetime.date_of (datetime_now w (Pytz.static_tz name))) days_ahead ->
  ipo ∈ ipos ->
  Ipo.date ipo = calendar_text padded y m d ->
  Datetime._check_date_fields y m d = Ok tt ->
  exists upcoming,
    filter_upcoming w ipos days_ahead (Some (Pytz.static_tz name)) = Ok upcoming /\
    (ipo ∈ upcoming <->
     Datetime.date_of (datetime_now w (Pytz.static_tz name))
     <= Datetime._ymd2ord y m d
     <= Datetime.date_of (datetime_now w (Pytz.static_tz name)) + days_ahead).
Proof.
  intros Hw Hin Hdate Hv.
  eexists. split; [by apply filter_upcoming_Ok|].
  rewrite elem_of_filter, in_window_spec.
  assert (Hp : parse_date (Ipo.date ipo) (Pytz.static_tz name)
               = Ok (Datetime._ymd2ord y m d)).
  { unfold parse_date. rewrite Hdate, (strptime_calendar_text padded y m d Hv).
    reflexivity. }
  rewrite Hp. split.
  - intros (_ & o & [= <-] & Hr). exact Hr.
  - intros Hr. split; [done|]. by exists (Datetime._ymd2ord y m d).
Qed.

Lemma filter_upcoming_calendar_text_witness :
  exists upcoming,
    filter_upcoming (sample_world full_env)
      [sample_ipo "Aug 11, 2025"] 7 (Some (Pytz.static_tz "UTC")) = Ok upcoming /\
    (sample_ipo "Aug 11, 2025" ∈ upcoming <->
     Datetime.date_of (datetime_now (sample_world full_env) (Pytz.static_tz "UTC"))
     <= Datetime._ymd2ord 2025 8 11
     <= Datetime.date_of (datetime_now (sample_world full_env) (Pytz.static_tz "UTC"))
        + 7).
Proof.
  apply (filter_upcoming_calendar_text (sample_world full_env)
           [sample_ipo "Aug 11, 2025"] 7 "UTC" (sample_ipo "Aug 11, 2025")
           false 2025 8 11).
  - unfold window_representable. vm_compute. intuition congruence.
  - apply list_elem_of_here.
  - reflexivity.
  - reflexivity.
Defined.
